(** * STUN packet codec and request/response exchange (stun/packet.go)

    A shallow embedding of [packet], [newPacket], [newPacketFromBytes],
    [addAttribute], [bytes] and [send] of the Go package [stun], and the
    properties of the wire format and of the retransmission loop that are
    stated about them.

    Conventions.
    - A Go [uint16] is a [Z] in [0, 65536); every arithmetic operation the
      source performs on [uint16] operands is followed by [uint16], the
      truncation modulo 2^16.  A Go [int] is an unbounded [Z].
    - A byte is a [Byte.byte].
    - A Go byte slice is a [slice]: the backing array from the slice's first
      element up to its capacity, and the slice's length.  Slice expressions
      [s[lo:hi]] are checked against the capacity, index expressions against
      the length, as the Go runtime does.
    - Code that can panic runs in the [run] monad.  A function returning
      a pointer and an error returns a pair of options ([None] is [nil]).
    - The transport of [send] is a [world]: the answers the connection and
      [rand.Read] give, call by call.  [send] returns its result and the
      [trace] of what it did to the connection.

    Main statements.
    - [addAttribute_length_invariant]: the length field is the size of
      the attribute section modulo 2^16.
    - [bytes_length_aligned], [bytes_unpadded]: the size of the serialized
      packet; no padding is written.
    - [newPacketFromBytes_short], [newPacketFromBytes_length_overflow_panics]:
      the framing checks of the decoder and where they fail.
    - [newPacketFromBytes_ignores_length]: the decoder walks the whole
      buffer whatever the header declares.
    - [roundtrip_aligned], [roundtrip_changes_length],
      [roundtrip_length_doubled]: what decoding a serialized packet gives.
    - [send_backoff_schedule], [send_exhaustion], [send_transaction_match],
      [send_write_failure], [send_short_datagram_panics]: the exchange. *)

From Stdlib Require Import ZArith List Bool Lia String.
From Stdlib Require Import Init.Byte Strings.Byte.
Import ListNotations.
Local Open Scope Z_scope.

(** ** Machine integers and bytes *)

Definition uint16 (z : Z) : Z := z mod 65536.

Definition byte_val (b : byte) : Z := Z.of_N (Byte.to_N b).

(** Go's conversion [byte(x)] of an unsigned integer: the low eight bits. *)
Definition byte_of (z : Z) : byte :=
  match Byte.of_N (Z.to_N (z mod 256)) with
  | Some b => b
  | None => x00
  end.

(** ** Errors, panics and the [run] monad *)

Inductive error : Type :=
| ErrorString (msg : string)          (* errors.New(msg) *)
| NetError (timeout : bool) (id : nat) (* an error implementing net.Error *)
| OtherError (id : nat).               (* any other error value *)

Inductive panic : Type :=
| SliceBounds (lo hi cap : Z)  (* slice bounds out of range *)
| IndexRange (i n : Z)         (* index out of range *)
| NilDereference               (* field access through a nil pointer *)
| TypeAssertion.               (* failed x.(T) *)

(** [Exhausted] is not a behaviour of the program: it is what the model
    answers when its fuel, or the scripted environment, ends before the
    code has finished. *)
Inductive run (A : Type) : Type :=
| Val (a : A)
| Panics (p : panic)
| Exhausted.

Arguments Val {A} a.
Arguments Panics {A} p.
Arguments Exhausted {A}.

Definition bind {A B : Type} (m : run A) (k : A -> run B) : run B :=
  match m with
  | Val a => k a
  | Panics p => Panics p
  | Exhausted => Exhausted
  end.

Notation "x <- m ;; k" := (bind m (fun x => k))
  (at level 61, m at next level, right associativity).

(** ** Byte slices *)

Record slice : Type := mkSlice {
  s_arr : list byte;   (* backing array, from the slice's start to its capacity *)
  s_len : Z            (* len(s) *)
}.

Definition cap (s : slice) : Z := Z.of_nat (List.length (s_arr s)).

(** The slice holding [data], with [slack] more bytes of capacity behind it. *)
Definition slice_of (data slack : list byte) : slice :=
  {| s_arr := data ++ slack; s_len := Z.of_nat (List.length data) |}.

(** The elements of a slice, [s[0] .. s[len(s)-1]]. *)
Definition contents (s : slice) : list byte :=
  firstn (Z.to_nat (s_len s)) (s_arr s).

(** [s[lo:hi]]: panics unless [0 <= lo <= hi <= cap(s)]. *)
Definition reslice (s : slice) (lo hi : Z) : run slice :=
  if (0 <=? lo) && (lo <=? hi) && (hi <=? cap s)
  then Val {| s_arr := skipn (Z.to_nat lo) (s_arr s); s_len := hi - lo |}
  else Panics (SliceBounds lo hi (cap s)).

(** [s[i]]: panics unless [0 <= i < len(s)]. *)
Definition index (s : slice) (i : Z) : run byte :=
  if (0 <=? i) && (i <? s_len s)
  then Val (nth (Z.to_nat i) (s_arr s) x00)
  else Panics (IndexRange i (s_len s)).

(** ** encoding/binary, big endian *)

(** [binary.BigEndian.Uint16(b)]:
    [_ = b[1]; return uint16(b[1]) | uint16(b[0])<<8]. *)
Definition be16 (b0 b1 : byte) : Z :=
  Z.lor (byte_val b1) (Z.shiftl (byte_val b0) 8).

Definition Uint16 (b : slice) : run Z :=
  b1 <- index b 1 ;;
  b0 <- index b 0 ;;
  Val (be16 b0 b1).

(** [binary.BigEndian.PutUint16(b, v)]: [b[0] = byte(v >> 8); b[1] = byte(v)]. *)
Definition PutUint16 (v : Z) : list byte :=
  [byte_of (Z.shiftr v 8); byte_of v].

(** [binary.BigEndian.PutUint32(b, v)]. *)
Definition PutUint32 (v : Z) : list byte :=
  [byte_of (Z.shiftr v 24); byte_of (Z.shiftr v 16);
   byte_of (Z.shiftr v 8); byte_of v].

(** ** Attributes *)

(** Modelled from the spec: the declaration of [attribute] is not in
    packet.go.  "Attribute: {type: 16-bit code, length: 16-bit byte count of
    value, value: byte sequence of exactly length bytes}". *)
Record attribute : Type := mkAttribute {
  attr_types : Z;
  attr_length : Z;
  attr_value : list byte
}.

(** Modelled from the spec: [newAttribute] is not in packet.go.
    "decodeAttribute(type, rawValueBytes) -> Attribute: pure, never fails
    (any byte sequence is a legal opaque value)"; the length field is the
    byte count of the value, held in 16 bits. *)
Definition newAttribute (types : Z) (value : list byte) : attribute :=
  {| attr_types := types;
     attr_length := uint16 (Z.of_nat (List.length value));
     attr_value := value |}.

(** Modelled from the spec: [align] is not in packet.go.
    "alignedLength(n) = ((n + 3) / 4) * 4", on [uint16] operands. *)
Definition align (n : Z) : Z := uint16 (uint16 (n + 3) / 4 * 4).

(** Modelled from the spec: the constant [magicCookie] is not in packet.go;
    "a fixed 4-byte magic cookie constant identifying protocol version".
    The value is the one of RFC 5389; no statement below depends on it. *)
Definition magicCookie : Z := 554869826.

(** ** Packets *)

Record packet : Type := mkPacket {
  pkt_types : Z;
  pkt_length : Z;
  pkt_transId : list byte;
  pkt_attributes : list attribute
}.

(** The outcome of [rand.Read] on a 12-byte buffer. *)
Inductive rand_outcome : Type :=
| RandOk (r : list byte)
| RandErr (e : error).

(** [rand.Read] fills the 12 bytes [v.transId[4:]]. *)
Definition fill12 (r : list byte) : list byte :=
  firstn 12 (r ++ repeat x00 12).

Definition newPacket (rnd : rand_outcome) : option packet * option error :=
  match rnd with
  | RandErr e => (None, Some e)
  | RandOk r =>
      (Some {| pkt_types := 0;
               pkt_length := 0;
               pkt_transId := PutUint32 magicCookie ++ fill12 r;
               pkt_attributes := [] |}, None)
  end.

Definition addAttribute (v : packet) (a : attribute) : packet :=
  {| pkt_types := pkt_types v;
     pkt_length := uint16 (pkt_length v + uint16 (align (attr_length a) + 4));
     pkt_transId := pkt_transId v;
     pkt_attributes := pkt_attributes v ++ [a] |}.

(** The body of [for _, a := range v.attributes] in [bytes]. *)
Definition attributeBytes (a : attribute) : list byte :=
  PutUint16 (attr_types a) ++ PutUint16 (attr_length a) ++ attr_value a.

Definition bytes (v : packet) : list byte :=
  PutUint16 (pkt_types v) ++ PutUint16 (pkt_length v) ++ pkt_transId v
  ++ flat_map attributeBytes (pkt_attributes v).

(** The loop of [newPacketFromBytes].  [pos] is a [uint16]; so are [pos+2],
    [pos+4], [pos+4+length] and [uint16(len(packetBytes))].  On a buffer of
    more than 65532 bytes [pos] can wrap around and start again at 0 (see
    [newPacketFromBytes_length_read_on_wrap]), so nothing decreases in
    general; hence the fuel, one unit for each iteration.  On smaller
    buffers the loop ends by itself ([walk_finishes]). *)
Fixpoint walk (fuel : nat) (packetBytes : slice) (pos : Z) (pkt : packet)
  : run (option packet * option error) :=
  if pos <? uint16 (s_len packetBytes) then
    match fuel with
    | O => Exhausted
    | S fuel' =>
        b <- reslice packetBytes pos (uint16 (pos + 2)) ;;
        types <- Uint16 b ;;
        b' <- reslice packetBytes (uint16 (pos + 2)) (uint16 (pos + 4)) ;;
        length <- Uint16 b' ;;
        if uint16 (pos + 4 + length) >? uint16 (s_len packetBytes) then
          Val (None, Some (ErrorString "Received data format mismatch."))
        else
          value <- reslice packetBytes (uint16 (pos + 4))
                                       (uint16 (pos + 4 + length)) ;;
          let attribute := newAttribute types (contents value) in
          walk fuel' packetBytes (uint16 (pos + uint16 (align length + 4)))
               (addAttribute pkt attribute)
    end
  else Val (Some pkt, None).

Definition newPacketFromBytes (rnd : rand_outcome) (fuel : nat)
  (packetBytes : slice) : run (option packet * option error) :=
  if s_len packetBytes <? 24 then
    Val (None, Some (ErrorString "Received data length too short."))
  else
    match newPacket rnd with
    | (_, Some err) => Val (None, Some err)
    | (None, None) => Panics NilDereference
    | (Some pkt, None) =>
        b <- reslice packetBytes 0 2 ;;
        types <- Uint16 b ;;
        b' <- reslice packetBytes 2 4 ;;
        length <- Uint16 b' ;;
        transId <- reslice packetBytes 4 20 ;;
        walk fuel packetBytes 20
             {| pkt_types := types;
                pkt_length := length;
                pkt_transId := contents transId;
                pkt_attributes := pkt_attributes pkt |}
    end.

(** ** The transport and the exchange *)

(** [bytes.Equal]. *)
Fixpoint bytes_Equal (a b : list byte) : bool :=
  match a, b with
  | [], [] => true
  | x :: a', y :: b' => Byte.eqb x y && bytes_Equal a' b'
  | _, _ => false
  end.

(** A [net.Addr]; the code only passes addresses on. *)
Definition addr : Type := nat.

(** What one call of [conn.ReadFrom] answers: a datagram and its sender, or
    an error. *)
Inductive read_outcome : Type :=
| ReadOk (data : list byte) (raddr : addr)
| ReadErr (e : error).

(** The environment of one call of [send]: the answer of the [i]-th call of
    [conn.WriteTo] and of [conn.SetReadDeadline] (one of each for an
    attempt, [i] counted from 0), the answers of the successive calls of
    [conn.ReadFrom], and the answer of [rand.Read] in the [newPacket] that
    follows the [k]-th call of [conn.ReadFrom]. *)
Record world : Type := mkWorld {
  WriteTo : nat -> Z * option error;
  SetReadDeadline : nat -> option error;
  ReadFrom : list read_outcome;
  randRead : nat -> rand_outcome
}.

(** What [send] does to the transport, in order.  [EvSetReadDeadline ms] is
    the call [conn.SetReadDeadline(time.Now().Add(ms * time.Millisecond))]. *)
Inductive event : Type :=
| EvWriteTo (b : list byte) (to : addr)
| EvSetReadDeadline (ms : Z)
| EvReadFrom.

Record state : Type := mkState {
  pending : list read_outcome;  (* answers of the calls of ReadFrom to come *)
  reads_done : nat;             (* calls of ReadFrom so far *)
  trace : list event
}.

Definition result : Type := option addr * option packet * option error.

(** How the inner [for] loop of [send] is left. *)
Inductive loop_exit : Type :=
| LBreak
| LReturn (r : result).

(** [packetBytes := make([]byte, 1024)] after [conn.ReadFrom(packetBytes)]
    has copied a datagram into it, and the count [ReadFrom] returns. *)
Definition readCount (data : list byte) : Z :=
  Z.of_nat (Nat.min (List.length data) 1024).

Definition readBuffer (data : list byte) : slice :=
  let d := firstn 1024 data in
  {| s_arr := d ++ repeat x00 (1024 - List.length d); s_len := 1024 |}.

(** Fuel for the attribute loop on a datagram: the loop advances by at least
    four of the at most 1024 bytes in each iteration (see
    [newPacketFromBytes_datagram_finishes]). *)
Definition datagramFuel : nat := 1024.

(** The inner loop [for { ... }] of [send]. *)
Fixpoint recvLoop (w : world) (v : packet) (rs : list read_outcome)
  (k : nat) (tr : list event) : run loop_exit * state :=
  match rs with
  | [] => (Exhausted, mkState [] k tr)
  | r :: rs' =>
      let st := mkState rs' (S k) (tr ++ [EvReadFrom]) in
      match r with
      | ReadErr (NetError true _) => (Val LBreak, st)
      | ReadErr (NetError false id) =>
          (Val (LReturn (None, None, Some (NetError false id))), st)
      | ReadErr _ => (Panics TypeAssertion, st)
      | ReadOk data raddr =>
          match
            (s <- reslice (readBuffer data) 0 (readCount data) ;;
             newPacketFromBytes (randRead w k) datagramFuel s)
          with
          | Val (pkt, err) =>
              match pkt with
              | None => (Panics NilDereference, st)
              | Some p =>
                  if negb (bytes_Equal (pkt_transId v) (pkt_transId p))
                  then recvLoop w v rs' (S k) (tr ++ [EvReadFrom])
                  else (Val (LReturn (Some raddr, pkt, err)), st)
              end
          | Panics p => (Panics p, st)
          | Exhausted => (Exhausted, st)
          end
      end
  end.

(** The outer loop [for i := 0; i < 9; i++] of [send], with [n = 9 - i]
    iterations to go. *)
Fixpoint sendLoop (w : world) (v : packet) (to : addr) (n i : nat)
  (timeout : Z) (st : state) : run result * state :=
  match n with
  | O => (Val (None, None, None), st)
  | S n' =>
      let st1 := mkState (pending st) (reads_done st)
                         (trace st ++ [EvWriteTo (bytes v) to]) in
      let '(length, err) := WriteTo w i in
      match err with
      | Some e => (Val (None, None, Some e), st1)
      | None =>
          if negb (length =? Z.of_nat (List.length (bytes v))) then
            (Val (None, None, Some (ErrorString "Error in sending data.")), st1)
          else
            let st2 := mkState (pending st) (reads_done st)
                               (trace st1 ++ [EvSetReadDeadline timeout]) in
            match SetReadDeadline w i with
            | Some e => (Val (None, None, Some e), st2)
            | None =>
                let timeout' :=
                  if timeout <? 1600 then timeout * 2 else timeout in
                match recvLoop w v (pending st2) (reads_done st2) (trace st2) with
                | (Val LBreak, st3) => sendLoop w v to n' (S i) timeout' st3
                | (Val (LReturn r), st3) => (Val r, st3)
                | (Panics p, st3) => (Panics p, st3)
                | (Exhausted, st3) => (Exhausted, st3)
                end
            end
      end
  end.

(** [send]; the tracing under [debug] writes to standard output only and is
    left out. *)
Definition send (w : world) (v : packet) (to : addr) : run result * state :=
  sendLoop w v to 9 0 100 (mkState (ReadFrom w) 0 []).

(** The results of [send] and what it did. *)
Definition writes_of (tr : list event) : list (list byte) :=
  flat_map (fun e => match e with EvWriteTo b _ => [b] | _ => [] end) tr.

Definition deadlines_of (tr : list event) : list Z :=
  flat_map (fun e => match e with EvSetReadDeadline ms => [ms] | _ => [] end) tr.

(** ** Notions used in the statements *)

(** A value that fits a [uint16]. *)
Definition uint16_ok (z : Z) : Prop := 0 <= z < 65536.

(** The size of an attribute section as [addAttribute] counts it: for each
    attribute the 4-byte header and the aligned length of the value. *)
Definition attrsLength (l : list attribute) : Z :=
  fold_right (fun a n => 4 + align (attr_length a) + n) 0 l.

(** An attribute whose value has the declared length. *)
Definition attr_declared (a : attribute) : Prop :=
  uint16_ok (attr_length a) /\
  attr_length a = Z.of_nat (List.length (attr_value a)).

(** An attribute whose fields fit their types and whose value has the
    declared length. *)
Definition attr_ok (a : attribute) : Prop :=
  uint16_ok (attr_types a) /\ attr_declared a.

Definition attr_aligned (a : attribute) : Prop := attr_length a mod 4 = 0.

(** A fresh request and attributes to put in it. *)
Definition request : packet :=
  {| pkt_types := 1; pkt_length := 0;
     pkt_transId := PutUint32 magicCookie ++ repeat x07 12;
     pkt_attributes := [] |}.

Definition attr4 : attribute := newAttribute 3 [x00; x00; x00; x01].
Definition attr1 : attribute := newAttribute 3 [x07].
Definition attrHuge : attribute := newAttribute 3 (repeat x00 (Z.to_nat 65532)).

(** The request with one attribute of four bytes; with one attribute of one
    byte and then one of four bytes. *)
Definition alignedPacket : packet := addAttribute request attr4.
Definition unalignedPacket : packet :=
  addAttribute (addAttribute request attr1) attr4.

(** A 24-byte datagram whose only attribute header declares a value of
    65535 bytes. *)
Definition overflowDatagram : list byte := repeat x00 22 ++ [xff; xff].

(** The retransmission timeouts of RFC 3489, in milliseconds. *)
Definition backoff : list Z := [100; 200; 400; 800; 1600; 1600; 1600; 1600; 1600].

(** [if timeout < 1600 { timeout *= 2 }]. *)
Definition doubled (timeout : Z) : Z :=
  if timeout <? 1600 then timeout * 2 else timeout.

(** The timeouts of [n] successive attempts, the first with [timeout]. *)
Fixpoint schedule (n : nat) (timeout : Z) : list Z :=
  match n with
  | O => []
  | S n' => timeout :: schedule n' (doubled timeout)
  end.

(** The events of an attempt whose write went through, in the order of the
    loop body: the write, the deadline [fst d] milliseconds ahead, and then
    the [snd d] reads of its receive phase. *)
Definition attempt (b : list byte) (to : addr) (d : Z * nat) : list event :=
  EvWriteTo b to :: EvSetReadDeadline (fst d) :: repeat EvReadFrom (snd d).

(** What [send] makes of a datagram it has read, when [rand.Read] works. *)
Definition decode (data : list byte) : run (option packet * option error) :=
  s <- reslice (readBuffer data) 0 (readCount data) ;;
  newPacketFromBytes (RandOk []) datagramFuel s.

(** A datagram that parses as a packet with another transaction ID than
    that of [v]. *)
Definition unrelated (v : packet) (data : list byte) : Prop :=
  exists p : packet,
    decode data = Val (Some p, None) /\ pkt_transId p <> pkt_transId v.

(** A datagram that parses as the packet [p], whose transaction ID is that
    of [v]. *)
Definition reply_to (v : packet) (data : list byte) (p : packet) : Prop :=
  decode data = Val (Some p, None) /\ pkt_transId p = pkt_transId v.

Definition datagram (d : list byte * addr) : read_outcome :=
  ReadOk (fst d) (snd d).

(** The answers of [conn.ReadFrom] during a receive phase in which the
    datagrams [ds] arrive and then the deadline passes. *)
Definition phase (ph : list (list byte * addr) * nat) : list read_outcome :=
  map datagram (fst ph) ++ [ReadErr (NetError true (snd ph))].

(** [rand.Read] never fails. *)
Definition rand_works (w : world) : Prop :=
  forall k : nat, exists r : list byte, randRead w k = RandOk r.

(** Attempts [i], ..., [i+n-1] write the whole of [v] and arm their
    deadline without error. *)
Definition transport_works (w : world) (v : packet) (i n : nat) : Prop :=
  forall j : nat, (i <= j < i + n)%nat ->
    WriteTo w j = (Z.of_nat (List.length (bytes v)), None) /\
    SetReadDeadline w j = None.

(** Datagrams for the request: a reply to it, and a packet of some other
    exchange. *)
Definition replyDatagram : list byte :=
  bytes (addAttribute {| pkt_types := 257; pkt_length := 0;
                         pkt_transId := pkt_transId request;
                         pkt_attributes := [] |}
                      (newAttribute 1 [x00; x01; xd4; x31; xcb; x00; x71; x05])).

Definition strangerDatagram : list byte :=
  bytes (addAttribute {| pkt_types := 257; pkt_length := 0;
                         pkt_transId := PutUint32 magicCookie ++ repeat x09 12;
                         pkt_attributes := [] |}
                      (newAttribute 1 [x00; x01; xd4; x31; xcb; x00; x71; x05])).

(** What [replyDatagram] parses to. *)
Definition replyPacket : packet :=
  {| pkt_types := 257; pkt_length := 24;
     pkt_transId := pkt_transId request;
     pkt_attributes :=
       [newAttribute 1 [x00; x01; xd4; x31; xcb; x00; x71; x05]] |}.

(** A transport that writes everything and on which reads answer [rs]. *)
Definition scripted (rs : list read_outcome) : world :=
  {| WriteTo := fun _ => (Z.of_nat (List.length (bytes request)), None);
     SetReadDeadline := fun _ => None;
     ReadFrom := rs;
     randRead := fun _ => RandOk (repeat x05 12) |}.

(** A transport whose second write stops one byte short. *)
Definition shortWrite (rs : list read_outcome) : world :=
  {| WriteTo := fun i =>
       match i with
       | 1%nat => (Z.of_nat (List.length (bytes request)) - 1, None)
       | _ => (Z.of_nat (List.length (bytes request)), None)
       end;
     SetReadDeadline := fun _ => None;
     ReadFrom := rs;
     randRead := fun _ => RandOk (repeat x05 12) |}.

(** Nine receive phases: a stranger's datagram in the first, none in the
    others. *)
Definition silentPhases : list (list (list byte * addr) * nat) :=
  ([(strangerDatagram, 7%nat)], 0%nat) :: repeat ([], 0%nat) 8.

(** [l] with the byte at index [i] replaced by [b]. *)
Fixpoint poke (i : nat) (b : byte) (l : list byte) : list byte :=
  match l, i with
  | [], _ => []
  | _ :: l', O => b :: l'
  | x :: l', S i' => x :: poke i' b l'
  end.

(** The buffer [data] with the length field of its header, the bytes at
    offsets 2 and 3, replaced. *)
Definition withLength (data : list byte) (hi lo : byte) : list byte :=
  poke 2 hi (poke 3 lo data).

(** Packets that differ at most in their length field; outcomes of
    [newPacketFromBytes] that differ at most in the length field of the
    packet returned. *)
Definition same_but_length (p q : packet) : Prop :=
  pkt_types p = pkt_types q /\ pkt_transId p = pkt_transId q /\
  pkt_attributes p = pkt_attributes q.

Definition same_outcome (r r' : run (option packet * option error)) : Prop :=
  match r, r' with
  | Val (Some p, e), Val (Some q, e') => same_but_length p q /\ e = e'
  | Val (None, e), Val (None, e') => e = e'
  | Panics a, Panics b => a = b
  | Exhausted, Exhausted => True
  | _, _ => False
  end.

(** A 28-byte buffer: a header that declares an empty attribute section,
    and one attribute with a 4-byte value behind it. *)
Definition undeclaredAttribute : list byte :=
  [x01; x01; x00; x00] ++ repeat x07 16
  ++ [x00; x01; x00; x04; xc0; x00; x02; x01].

(** A 28-byte buffer: a header that declares a 4-byte attribute section, an
    attribute without value, and four more bytes that read as the header of
    an attribute with a 1-byte value. *)
Definition trailingBytes : list byte :=
  [x01; x01; x00; x04] ++ repeat x07 16
  ++ [x00; x01; x00; x00] ++ [x00; x02; x00; x01].

(** A buffer of 65533 bytes, with [hi], [lo] as the length field of its
    header: an attribute with a value of 65504 bytes at offset 20 and an
    attribute with a 1-byte value at offset 65528. *)
Definition wrapBuffer (hi lo : byte) : list byte :=
  [x00; x01; hi; lo] ++ repeat x00 16
  ++ [x00; x00; xff; xe0] ++ repeat x00 (Z.to_nat 65504)
  ++ [x00; x00; x00; x01] ++ [x00].

(** Two slices over buffers that agree from offset 4 on. *)
Definition same_tail (s s' : slice) : Prop :=
  s_len s = s_len s' /\ cap s = cap s' /\
  forall j : nat, (4 <= j)%nat -> skipn j (s_arr s) = skipn j (s_arr s').

(** The header of a buffer of at least 24 bytes. *)
Definition headerOf (arr : list byte) : packet :=
  {| pkt_types := be16 (nth 0 arr x00) (nth 1 arr x00);
     pkt_length := be16 (nth 2 arr x00) (nth 3 arr x00);
     pkt_transId := firstn 16 (skipn 4 arr);
     pkt_attributes := [] |}.

(** The calls of [conn.WriteTo] in a trace: what was written, and to
    whom. *)
Definition sent_of (tr : list event) : list (list byte * addr) :=
  flat_map (fun e => match e with EvWriteTo b to => [(b, to)] | _ => [] end) tr.

(** A transport that writes everything and cannot arm the deadline of its
    second attempt. *)
Definition deadlineFails (rs : list read_outcome) : world :=
  {| WriteTo := fun _ => (Z.of_nat (List.length (bytes request)), None);
     SetReadDeadline := fun i =>
       match i with
       | 1%nat => Some (OtherError 4)
       | _ => None
       end;
     ReadFrom := rs;
     randRead := fun _ => RandOk (repeat x05 12) |}.

(** ** The address accessors *)

(** What packet.go uses of its package and does not define, as parameters:
    the type [Host], the attribute type codes, and the methods [address]
    and [xorMappedAddr] of [attribute] (a nil [*Host] is [None]). *)
Class AttributeCodec : Type := {
  Host : Type;
  attributeSourceAddress : Z;
  attributeMappedAddress : Z;
  attributeChangedAddress : Z;
  attributeXorMappedAddress : Z;
  attributeXorMappedAddressExp : Z;
  address : attribute -> option Host;
  attr_xorMappedAddr : attribute -> list byte -> option Host
}.

(** The loop of [sourceAddr], [mappedAddr] and [changeAddr]:
    [for _, a := range v.attributes { if a.types == code { return a.address() } }
     return nil]. *)
Fixpoint addressOf {C : AttributeCodec} (code : Z) (l : list attribute)
  : option Host :=
  match l with
  | [] => None
  | a :: l' => if attr_types a =? code then address a else addressOf code l'
  end.

Definition sourceAddr {C : AttributeCodec} (v : packet) : option Host :=
  addressOf attributeSourceAddress (pkt_attributes v).

Definition mappedAddr {C : AttributeCodec} (v : packet) : option Host :=
  addressOf attributeMappedAddress (pkt_attributes v).

Definition changeAddr {C : AttributeCodec} (v : packet) : option Host :=
  addressOf attributeChangedAddress (pkt_attributes v).

(** The loop of [xorMappedAddr]. *)
Fixpoint xorAddressOf {C : AttributeCodec} (transId : list byte)
  (l : list attribute) : option Host :=
  match l with
  | [] => None
  | a :: l' =>
      if (attr_types a =? attributeXorMappedAddress)
         || (attr_types a =? attributeXorMappedAddressExp)
      then attr_xorMappedAddr a transId
      else xorAddressOf transId l'
  end.

Definition xorMappedAddr {C : AttributeCodec} (v : packet) : option Host :=
  xorAddressOf (pkt_transId v) (pkt_attributes v).

(** Whether an attribute is one [xorMappedAddr] looks for. *)
Definition is_xor {C : AttributeCodec} (a : attribute) : Prop :=
  attr_types a = attributeXorMappedAddress \/
  attr_types a = attributeXorMappedAddressExp.

(** Stand-ins for the examples (the statements hold for every codec): the
    type codes of RFC 3489 and RFC 5389; a host is the value of the
    attribute behind its first four bytes, nil when the value has less
    than eight bytes; [xorMappedAddr] puts the first four bytes of the
    transaction ID in front of it. *)
Definition exampleCodec : AttributeCodec :=
  {| Host := list byte;
     attributeSourceAddress := 4;
     attributeMappedAddress := 1;
     attributeChangedAddress := 5;
     attributeXorMappedAddress := 32;
     attributeXorMappedAddressExp := 32800;
     address := fun a =>
       if (List.length (attr_value a) <? 8)%nat then None
       else Some (skipn 4 (attr_value a));
     attr_xorMappedAddr := fun a transId =>
       if (List.length (attr_value a) <? 8)%nat then None
       else Some (firstn 4 transId ++ skipn 4 (attr_value a)) |}.

(** Attributes for the examples: a mapped address, a second one, one too
    short to hold an address, and the two kinds of XOR-mapped address. *)
Definition mapped1 : attribute :=
  newAttribute 1 [x00; x01; xd4; x31; xcb; x00; x71; x05].
Definition mapped2 : attribute :=
  newAttribute 1 [x00; x01; x00; x50; xc0; x00; x02; x01].
Definition mappedShort : attribute := newAttribute 1 [x00; x01; x00; x50].
Definition xorMapped : attribute :=
  newAttribute 32 [x00; x01; xf5; x23; xea; x12; xd5; x47].
Definition xorMappedExp : attribute :=
  newAttribute 32800 [x00; x01; xf5; x23; xea; x12; xd5; x47].

(** The reply that [replyDatagram] serializes. *)
Definition replySent : packet :=
  addAttribute {| pkt_types := 257; pkt_length := 0;
                  pkt_transId := pkt_transId request;
                  pkt_attributes := [] |} mapped1.

(** The request with an attribute of another type, a mapped address too
    short to decode and a whole one behind it; with attributes of both
    XOR-mapped-address codes. *)
Definition shadowedPacket : packet :=
  fold_left addAttribute [attr4; mappedShort; mapped2] request.
Definition xorPacket : packet :=
  fold_left addAttribute [attr4; xorMappedExp; xorMapped] request.

(** * Properties *)

(** ** Bytes and 16-bit arithmetic *)

Lemma byte_val_range (b : byte) : 0 <= byte_val b < 256.
Proof.
  unfold byte_val. pose proof (Byte.to_N_bounded b). lia.
Qed.

Lemma byte_val_of (z : Z) : byte_val (byte_of z) = z mod 256.
Proof.
  unfold byte_val, byte_of.
  pose proof (Z.mod_pos_bound z 256 ltac:(lia)) as Hr.
  destruct (Byte.of_N (Z.to_N (z mod 256))) as [b|] eqn:E.
  - apply Byte.to_of_N in E. rewrite E. lia.
  - apply Byte.of_N_None_iff in E. lia.
Qed.

Lemma byte_of_val (b : byte) : byte_of (byte_val b) = b.
Proof.
  unfold byte_of, byte_val.
  pose proof (Byte.to_N_bounded b).
  rewrite Z.mod_small by lia.
  rewrite N2Z.id, Byte.of_to_N. reflexivity.
Qed.

Lemma lor_shiftl_8 (x y : Z) :
  0 <= x < 256 -> 0 <= y -> Z.lor x (Z.shiftl y 8) = x + y * 256.
Proof.
  intros Hx Hy.
  rewrite Z.shiftl_mul_pow2 by lia. change (2 ^ 8) with 256.
  assert (Hland : Z.land x (y * 256) = 0).
  { apply Z.bits_inj'. intros n Hn. rewrite Z.land_spec, Z.bits_0.
    destruct (Z.lt_ge_cases n 8) as [Hlt|Hge].
    - replace (y * 256) with (y * 2 ^ 8) by lia.
      rewrite Z.mul_pow2_bits_low by lia. apply andb_false_r.
    - destruct (Z.eq_dec x 0) as [->|Hnz].
      + rewrite Z.bits_0. reflexivity.
      + rewrite Z.bits_above_log2; [reflexivity| lia |].
        apply Z.log2_lt_pow2; [lia|].
        apply Z.lt_le_trans with (2 ^ 8); [cbn; lia|].
        apply Z.pow_le_mono_r; lia. }
  rewrite <- Z.lxor_lor by exact Hland.
  symmetry. apply Z.add_nocarry_lxor. exact Hland.
Qed.

Lemma uint16_range (z : Z) : 0 <= uint16 z < 65536.
Proof. unfold uint16. apply Z.mod_pos_bound. lia. Qed.

Lemma uint16_small (z : Z) : 0 <= z < 65536 -> uint16 z = z.
Proof. intros. unfold uint16. apply Z.mod_small. assumption. Qed.

(** [align] below the wrap-around. *)
Lemma align_small (n : Z) :
  0 <= n <= 65532 ->
  n <= align n <= n + 3 /\ align n mod 4 = 0 /\ (n mod 4 = 0 -> align n = n).
Proof.
  intros Hn. unfold align, uint16.
  Z.div_mod_to_equations. lia.
Qed.

(** One iteration of the attribute loop in a buffer of at most 65532 bytes,
    once the bounds check and the slice expressions have gone through:
    nothing wraps, and [pos] advances by at least 4. *)
Lemma advance_bounds (pos length ulen : Z) :
  0 <= pos < ulen -> ulen <= 65532 -> 0 <= length < 65536 ->
  uint16 (pos + 4) <= uint16 (pos + 4 + length) ->
  uint16 (pos + 4 + length) <= ulen ->
  uint16 (pos + 2) = pos + 2 /\ uint16 (pos + 4) = pos + 4 /\
  uint16 (pos + 4 + length) = pos + 4 + length /\
  uint16 (pos + uint16 (align length + 4)) = pos + 4 + align length /\
  pos + 4 + length <= ulen /\ length <= align length <= length + 3.
Proof.
  intros Hpos Hu Hl Hlo Hhi.
  assert (H4 : uint16 (pos + 4) = pos + 4) by (apply uint16_small; lia).
  rewrite H4 in Hlo.
  assert (Hsum : pos + 4 + length < 65536).
  { destruct (Z_lt_ge_dec (pos + 4 + length) 65536) as [|Hge]; [assumption|].
    exfalso. unfold uint16 in Hlo.
    replace (pos + 4 + length) with ((pos + 4 + length - 65536) + 1 * 65536) in Hlo by lia.
    rewrite Z.mod_add in Hlo by lia. rewrite Z.mod_small in Hlo by lia. lia. }
  assert (H5 : uint16 (pos + 4 + length) = pos + 4 + length) by (apply uint16_small; lia).
  rewrite H5 in Hhi.
  destruct (align_small length) as (Ha & _); [lia|].
  repeat split; try lia; try (apply uint16_small; lia).
  rewrite (uint16_small (align length + 4)) by lia.
  rewrite uint16_small by lia. lia.
Qed.

(** ** Slices *)

Lemma reslice_Val (s v : slice) (lo hi : Z) :
  reslice s lo hi = Val v ->
  0 <= lo <= hi /\ hi <= cap s /\
  v = {| s_arr := skipn (Z.to_nat lo) (s_arr s); s_len := hi - lo |}.
Proof.
  unfold reslice.
  destruct (0 <=? lo) eqn:E1, (lo <=? hi) eqn:E2, (hi <=? cap s) eqn:E3;
    cbn; intros H; try discriminate.
  apply Z.leb_le in E1, E2, E3. injection H as <-.
  repeat split; assumption.
Qed.

Lemma reslice_ok (s : slice) (lo hi : Z) :
  0 <= lo <= hi -> hi <= cap s ->
  reslice s lo hi =
  Val {| s_arr := skipn (Z.to_nat lo) (s_arr s); s_len := hi - lo |}.
Proof.
  intros H1 H2. unfold reslice.
  destruct (0 <=? lo) eqn:E1, (lo <=? hi) eqn:E2, (hi <=? cap s) eqn:E3;
    cbn; try reflexivity;
    rewrite ?Z.leb_gt in *; lia.
Qed.

Lemma be16_eq (b0 b1 : byte) : be16 b0 b1 = byte_val b0 * 256 + byte_val b1.
Proof.
  unfold be16. pose proof (byte_val_range b0). pose proof (byte_val_range b1).
  rewrite lor_shiftl_8 by lia. lia.
Qed.

Lemma be16_range (b0 b1 : byte) : 0 <= be16 b0 b1 < 65536.
Proof.
  rewrite be16_eq. pose proof (byte_val_range b0).
  pose proof (byte_val_range b1). lia.
Qed.

Lemma Uint16_range (b : slice) (z : Z) : Uint16 b = Val z -> 0 <= z < 65536.
Proof.
  unfold Uint16, index, bind.
  destruct ((0 <=? 1) && (1 <? s_len b)); [|discriminate].
  destruct ((0 <=? 0) && (0 <? s_len b)); [|discriminate].
  intros H. injection H as <-. apply be16_range.
Qed.

(** ** The attribute loop ends on buffers of at most 65532 bytes *)

Lemma reslice_finishes (s : slice) (lo hi : Z) : reslice s lo hi <> Exhausted.
Proof. unfold reslice. destruct (_ && _); discriminate. Qed.

Lemma Uint16_finishes (b : slice) : Uint16 b <> Exhausted.
Proof.
  unfold Uint16, index, bind.
  destruct (_ && _); [|discriminate]. destruct (_ && _); discriminate.
Qed.

Lemma bind_finishes {A B : Type} (m : run A) (k : A -> run B) :
  m <> Exhausted -> (forall a : A, m = Val a -> k a <> Exhausted) ->
  bind m k <> Exhausted.
Proof.
  intros Hm Hk. destruct m as [a| |]; cbn [bind];
    [apply Hk; reflexivity | discriminate | congruence].
Qed.

(** [x <- m ;; k] with [m] a slice or a [Uint16] read: go on with [k]. *)
Tactic Notation "run_bind" ident(x) ident(H) :=
  apply bind_finishes;
  [ first [apply reslice_finishes | apply Uint16_finishes] | intros x H ].

Lemma walk_finishes (fuel : nat) (s : slice) :
  uint16 (s_len s) <= 65532 ->
  forall (pos : Z) (pkt : packet),
    0 <= pos -> uint16 (s_len s) - pos <= 4 * Z.of_nat fuel ->
    walk fuel s pos pkt <> Exhausted.
Proof.
  intros Hu. induction fuel as [|fuel IH]; intros pos pkt Hpos Hm; cbn [walk].
  - destruct (pos <? uint16 (s_len s)) eqn:E; [lia | discriminate].
  - destruct (pos <? uint16 (s_len s)) eqn:E; [|discriminate].
    apply Z.ltb_lt in E.
    run_bind b Eb. run_bind types Et. run_bind b' Eb'. run_bind length El.
    apply Uint16_range in El.
    destruct (uint16 (pos + 4 + length) >? uint16 (s_len s)) eqn:Ec;
      [discriminate|].
    rewrite Z.gtb_ltb in Ec. apply Z.ltb_ge in Ec.
    run_bind value Ev.
    apply reslice_Val in Ev. destruct Ev as (Hlo & _ & _).
    destruct (advance_bounds pos length (uint16 (s_len s)))
      as (_ & _ & _ & Hnext & _ & Ha); try lia.
    rewrite Hnext. apply IH; lia.
Qed.

(** ** [addAttribute] and the length field *)

Lemma align_nonneg (n : Z) : 0 <= align n.
Proof. unfold align. apply uint16_range. Qed.

Lemma attrsLength_nonneg (l : list attribute) : 0 <= attrsLength l.
Proof.
  induction l as [|a l IH]; cbn [attrsLength fold_right]; [lia|].
  fold (attrsLength l). pose proof (align_nonneg (attr_length a)). lia.
Qed.

Lemma attrsLength_app (l l' : list attribute) :
  attrsLength (l ++ l') = attrsLength l + attrsLength l'.
Proof.
  induction l as [|a l IH]; [reflexivity|].
  cbn [app attrsLength fold_right]. fold (attrsLength (l ++ l')).
  fold (attrsLength l). rewrite IH. lia.
Qed.

Lemma uint16_add_l (a b : Z) : uint16 (uint16 a + b) = uint16 (a + b).
Proof. unfold uint16. apply Z.add_mod_idemp_l. lia. Qed.

Lemma uint16_add_r (a b : Z) : uint16 (a + uint16 b) = uint16 (a + b).
Proof. unfold uint16. apply Z.add_mod_idemp_r. lia. Qed.

Lemma addAttribute_fold (l : list attribute) :
  forall v : packet,
    uint16_ok (pkt_length v) ->
    pkt_attributes (fold_left addAttribute l v) = pkt_attributes v ++ l /\
    pkt_length (fold_left addAttribute l v)
    = uint16 (pkt_length v + attrsLength l) /\
    pkt_types (fold_left addAttribute l v) = pkt_types v /\
    pkt_transId (fold_left addAttribute l v) = pkt_transId v.
Proof.
  induction l as [|a l IH]; intros v Hv; cbn [fold_left].
  - cbn [attrsLength fold_right]. rewrite app_nil_r, Z.add_0_r.
    rewrite uint16_small by exact Hv. repeat split.
  - destruct (IH (addAttribute v a)) as (Ha & Hl & Ht & Hi).
    { cbn [addAttribute pkt_length]. apply uint16_range. }
    rewrite Ha, Hl, Ht, Hi. cbn [addAttribute pkt_attributes pkt_length
      pkt_types pkt_transId attrsLength fold_right]. fold (attrsLength l).
    rewrite <- app_assoc. repeat split.
    rewrite uint16_add_r, uint16_add_l. f_equal. lia.
Qed.

Lemma newPacket_length (rnd : rand_outcome) (v : packet) :
  newPacket rnd = (Some v, None) ->
  pkt_attributes v = [] /\ pkt_length v = 0.
Proof.
  destruct rnd as [r|e]; cbn; intros H; [|discriminate].
  injection H as <-. split; reflexivity.
Qed.

(** [request] is what [newPacket] returns, with the message type set. *)
Lemma request_of_newPacket :
  exists v0 : packet,
    newPacket (RandOk (repeat x07 12)) = (Some v0, None) /\
    request = {| pkt_types := 1;
                 pkt_length := pkt_length v0;
                 pkt_transId := pkt_transId v0;
                 pkt_attributes := pkt_attributes v0 |}.
Proof. eexists. split; reflexivity. Qed.

(** C8, as stated, fails.  The length field is a [uint16]: one attribute
    with a 65532-byte value added to a fresh packet makes the sum 65536
    while the field wraps to 0.  And [addAttribute] only adds to the field:
    on the packet that [newPacketFromBytes] holds after it has read the
    header of [bytes alignedPacket] (length field 8, no attribute yet), the
    call for the attribute leaves the field at 16 and the sum at 8. *)
Lemma addAttribute_length_overflow :
  (exists v0 : packet,
     newPacket (RandOk []) = (Some v0, None) /\
     pkt_length (addAttribute v0 attrHuge) = 0 /\
     attrsLength (pkt_attributes (addAttribute v0 attrHuge)) = 65536 /\
     pkt_length (addAttribute v0 attrHuge)
     <> attrsLength (pkt_attributes (addAttribute v0 attrHuge))) /\
  pkt_length (addAttribute (headerOf (bytes alignedPacket)) attr4) = 16 /\
  attrsLength (pkt_attributes
                 (addAttribute (headerOf (bytes alignedPacket)) attr4)) = 8.
Proof.
  split.
  - eexists. split; [reflexivity|].
    split; [vm_compute; reflexivity|].
    split; [vm_compute; reflexivity|].
    vm_compute. discriminate.
  - split; vm_compute; reflexivity.
Qed.

(** C8 (amended): for every packet whose length field is the sum, modulo
    2^16, of [4 + align(a.length)] over its attributes (a packet of
    [newPacket] is one), and for every sequence of [addAttribute] calls, the
    attributes are appended in order at the end, the length field grows by
    the sum of [align(a.length) + 4] modulo 2^16, it is again the sum over
    all attributes modulo 2^16, and it is the sum itself as long as that is
    below 65536. *)
Theorem addAttribute_length_invariant (v : packet) (l : list attribute) :
  pkt_length v = uint16 (attrsLength (pkt_attributes v)) ->
  pkt_attributes (fold_left addAttribute l v) = pkt_attributes v ++ l /\
  pkt_length (fold_left addAttribute l v)
  = uint16 (pkt_length v + attrsLength l) /\
  pkt_length (fold_left addAttribute l v)
  = uint16 (attrsLength (pkt_attributes (fold_left addAttribute l v))) /\
  (attrsLength (pkt_attributes (fold_left addAttribute l v)) < 65536 ->
   pkt_length (fold_left addAttribute l v)
   = attrsLength (pkt_attributes (fold_left addAttribute l v))).
Proof.
  intros Hinv.
  destruct (addAttribute_fold l v) as (Ha & Hl & _ & _).
  { rewrite Hinv. apply uint16_range. }
  assert (Hsum : pkt_length (fold_left addAttribute l v)
                 = uint16 (attrsLength (pkt_attributes (fold_left addAttribute l v)))).
  { rewrite Hl, Ha, attrsLength_app, Hinv. apply uint16_add_l. }
  repeat split; try assumption.
  intros Hlt. rewrite Hsum. apply uint16_small.
  pose proof (attrsLength_nonneg (pkt_attributes (fold_left addAttribute l v))).
  lia.
Qed.

Lemma addAttribute_length_invariant_witness :
  pkt_length request = uint16 (attrsLength (pkt_attributes request)) /\
  pkt_attributes (fold_left addAttribute [attr1; attr4] request)
  = [attr1; attr4] /\
  pkt_length (fold_left addAttribute [attr1; attr4] request) = 16.
Proof.
  split; [reflexivity|].
  destruct (addAttribute_length_invariant request [attr1; attr4] eq_refl)
    as (Ha & Hl & _ & _).
  split; [exact Ha | exact Hl].
Defined.

(** ** The size and layout of [bytes] *)

Lemma attributeBytes_length (a : attribute) :
  List.length (attributeBytes a) = (4 + List.length (attr_value a))%nat.
Proof. reflexivity. Qed.

Lemma bytes_length (v : packet) :
  List.length (bytes v)
  = (4 + List.length (pkt_transId v)
     + List.length (flat_map attributeBytes (pkt_attributes v)))%nat.
Proof.
  unfold bytes. rewrite !length_app. cbn [PutUint16 List.length]. lia.
Qed.

Lemma aligned_attrs_length (l : list attribute) :
  Forall (fun a => attr_declared a /\ attr_aligned a) l ->
  Z.of_nat (List.length (flat_map attributeBytes l)) = attrsLength l /\
  attrsLength l mod 4 = 0.
Proof.
  induction 1 as [|a l [[Hr Hd] Hal] _ [IHl IHm]]; [split; reflexivity|].
  cbn [flat_map attrsLength fold_right]. fold (attrsLength l).
  rewrite length_app, attributeBytes_length.
  unfold attr_aligned in Hal. unfold uint16_ok in Hr.
  destruct (align_small (attr_length a)) as (_ & _ & Heq).
  { apply Z.mod_divide in Hal; [|lia]. destruct Hal as [q Hq]. lia. }
  rewrite (Heq Hal). split; [lia|].
  rewrite Z.add_mod, (Z.add_mod 4), Hal, IHm by lia. reflexivity.
Qed.

(** C3, as stated, fails.  A packet with one 4-byte attribute is serialized
    to 28 bytes, not to 24 + 8.  A packet with a 1-byte attribute and a
    4-byte attribute is serialized to 33 bytes, not to 24 + 16, and the byte
    after the 1-byte value is the first byte of the next header: nothing
    is emitted between them. *)
Lemma bytes_unpadded :
  Z.of_nat (List.length (bytes alignedPacket))
  <> 24 + attrsLength (pkt_attributes alignedPacket) /\
  Z.of_nat (List.length (bytes unalignedPacket))
  <> 24 + attrsLength (pkt_attributes unalignedPacket) /\
  skipn 24 (bytes unalignedPacket) = attr_value attr1 ++ attributeBytes attr4.
Proof.
  split; [vm_compute; discriminate|].
  split; [vm_compute; discriminate|].
  vm_compute. reflexivity.
Qed.

(** C3 (amended): for every packet with a 16-byte transaction ID whose
    attribute values have the declared lengths, all multiples of 4, the
    serialized output has total length 20 + the sum over the attributes of
    [4 + align(value length)], and the header of every attribute starts on
    a 4-byte boundary. *)
Theorem bytes_length_aligned (v : packet) :
  List.length (pkt_transId v) = 16%nat ->
  Forall (fun a => attr_declared a /\ attr_aligned a) (pkt_attributes v) ->
  Z.of_nat (List.length (bytes v)) = 20 + attrsLength (pkt_attributes v) /\
  forall (pre : list attribute) (a : attribute) (post : list attribute),
    pkt_attributes v = pre ++ a :: post ->
    exists front : list byte,
      bytes v = front ++ attributeBytes a ++ flat_map attributeBytes post /\
      Z.of_nat (List.length front) mod 4 = 0.
Proof.
  intros Hid Hall. split.
  - rewrite bytes_length, Hid.
    destruct (aligned_attrs_length _ Hall) as [Hlen _]. lia.
  - intros pre a post Hsplit.
    exists (PutUint16 (pkt_types v) ++ PutUint16 (pkt_length v)
            ++ pkt_transId v ++ flat_map attributeBytes pre).
    split.
    + unfold bytes. rewrite Hsplit, flat_map_app. cbn [flat_map].
      rewrite <- !app_assoc. reflexivity.
    + rewrite Hsplit in Hall. apply Forall_app in Hall. destruct Hall as [Hpre _].
      destruct (aligned_attrs_length _ Hpre) as [Hlen Hmod].
      rewrite !length_app, Hid. cbn [PutUint16 List.length].
      replace (Z.of_nat (2 + (2 + (16 + List.length (flat_map attributeBytes pre)))))
        with (attrsLength pre + 5 * 4) by lia.
      rewrite Z.mod_add by lia. exact Hmod.
Qed.

Lemma bytes_length_aligned_witness :
  List.length (pkt_transId alignedPacket) = 16%nat /\
  Forall (fun a => attr_declared a /\ attr_aligned a)
         (pkt_attributes alignedPacket) /\
  Z.of_nat (List.length (bytes alignedPacket)) = 28.
Proof.
  assert (Hall : Forall (fun a => attr_declared a /\ attr_aligned a)
                        (pkt_attributes alignedPacket)).
  { repeat constructor; vm_compute; congruence. }
  split; [reflexivity|]. split; [exact Hall|].
  exact (proj1 (bytes_length_aligned alignedPacket eq_refl Hall)).
Defined.

(** ** Decoding: short input, and the bounds check *)

Lemma newPacketFromBytes_short (rnd : rand_outcome) (fuel : nat) (s : slice) :
  s_len s < 24 ->
  newPacketFromBytes rnd fuel s
  = Val (None, Some (ErrorString "Received data length too short.")).
Proof.
  intros H. unfold newPacketFromBytes.
  destruct (s_len s <? 24) eqn:E; [reflexivity|].
  apply Z.ltb_ge in E. lia.
Qed.

(** C2 at its failing inputs.  On the 24 bytes of [overflowDatagram] the
    check [pos+4+length > uint16(len(packetBytes))] computes 20+4+65535 = 23
    in 16 bits, lets the attribute through, and the slice expression
    [packetBytes[24:23]] panics, whatever the capacity of the buffer (24
    here, 1024 in [send]).  On a slice of 25 zero bytes with capacity 25
    the loop is entered again at offset 24 with one byte left, and
    [packetBytes[24:26]] panics: no check precedes the header reads. *)
Theorem newPacketFromBytes_length_overflow_panics (r : list byte) (fuel : nat) :
  newPacketFromBytes (RandOk r) (S fuel) (slice_of overflowDatagram [])
  = Panics (SliceBounds 24 23 24) /\
  newPacketFromBytes (RandOk r) (S fuel)
    (slice_of overflowDatagram (repeat x00 1000))
  = Panics (SliceBounds 24 23 1024) /\
  newPacketFromBytes (RandOk r) (S (S fuel)) (slice_of (repeat x00 25) [])
  = Panics (SliceBounds 24 26 25).
Proof. repeat split; reflexivity. Qed.

(** With at most 65532 bytes to walk, a unit of fuel for every four of
    them is enough. *)
Lemma newPacketFromBytes_finishes (rnd : rand_outcome) (fuel : nat) (s : slice) :
  uint16 (s_len s) <= 65532 ->
  uint16 (s_len s) - 20 <= 4 * Z.of_nat fuel ->
  newPacketFromBytes rnd fuel s <> Exhausted.
Proof.
  intros Hu Hf. unfold newPacketFromBytes.
  destruct (s_len s <? 24); [discriminate|].
  destruct (newPacket rnd) as [[pkt|] [err|]]; try discriminate.
  run_bind b Eb. run_bind types Et. run_bind b' Eb'. run_bind length El.
  run_bind transId Ei.
  apply walk_finishes; [assumption | lia | lia].
Qed.

(** ** The exchange: auxiliary facts *)

Lemma bytes_Equal_true (a b : list byte) : bytes_Equal a b = true <-> a = b.
Proof.
  revert b. induction a as [|x a IH]; intros [|y b]; cbn [bytes_Equal];
    split; intros H; try reflexivity; try discriminate.
  - apply andb_prop in H. destruct H as [Hxy Hab].
    apply Byte.byte_dec_bl in Hxy. apply IH in Hab. congruence.
  - injection H as -> ->. apply andb_true_intro. split.
    + apply Byte.byte_dec_lb. reflexivity.
    + apply IH. reflexivity.
Qed.

Lemma bytes_Equal_false (a b : list byte) : a <> b -> bytes_Equal a b = false.
Proof.
  intros H. destruct (bytes_Equal a b) eqn:E; [|reflexivity].
  apply bytes_Equal_true in E. contradiction.
Qed.

(** The random bytes never reach the packet decoded: only whether
    [rand.Read] fails matters. *)
Lemma decode_rand (r : list byte) (data : list byte) :
  (s <- reslice (readBuffer data) 0 (readCount data) ;;
   newPacketFromBytes (RandOk r) datagramFuel s) = decode data.
Proof. reflexivity. Qed.

Lemma readBuffer_cap (data : list byte) : cap (readBuffer data) = 1024.
Proof.
  unfold cap, readBuffer. cbn [s_arr].
  rewrite length_app, repeat_length, length_firstn. lia.
Qed.

Lemma readCount_range (data : list byte) : 0 <= readCount data <= 1024.
Proof. unfold readCount. lia. Qed.

(** The fuel [send] gives to the attribute loop is never used up: on a
    datagram the loop ends by itself. *)
Lemma newPacketFromBytes_datagram_finishes (rnd : rand_outcome)
  (data : list byte) :
  (s <- reslice (readBuffer data) 0 (readCount data) ;;
   newPacketFromBytes rnd datagramFuel s) <> Exhausted.
Proof.
  pose proof (readCount_range data) as Hc.
  rewrite reslice_ok by (rewrite ?readBuffer_cap; lia).
  cbn [bind]. apply newPacketFromBytes_finishes; cbn [s_len];
    rewrite Z.sub_0_r, uint16_small by lia; unfold datagramFuel; lia.
Qed.

Lemma repeat_snoc {A : Type} (x : A) (n : nat) :
  repeat x n ++ [x] = repeat x (S n).
Proof. induction n as [|n IH]; cbn; [reflexivity|]. f_equal. exact IH. Qed.

Lemma writes_of_app (tr tr' : list event) :
  writes_of (tr ++ tr') = writes_of tr ++ writes_of tr'.
Proof. apply flat_map_app. Qed.

Lemma deadlines_of_app (tr tr' : list event) :
  deadlines_of (tr ++ tr') = deadlines_of tr ++ deadlines_of tr'.
Proof. apply flat_map_app. Qed.

Lemma writes_of_reads (n : nat) : writes_of (repeat EvReadFrom n) = [].
Proof. induction n as [|n IH]; [reflexivity | exact IH]. Qed.

Lemma deadlines_of_reads (n : nat) : deadlines_of (repeat EvReadFrom n) = [].
Proof. induction n as [|n IH]; [reflexivity | exact IH]. Qed.

Lemma schedule_backoff : schedule 9 100 = backoff.
Proof. reflexivity. Qed.

Lemma schedule_prefix (n m : nat) (timeout : Z) :
  firstn n (schedule (n + m) timeout) = schedule n timeout.
Proof.
  revert timeout. induction n as [|n IH]; intros timeout; [reflexivity|].
  cbn [Nat.add schedule firstn]. rewrite IH. reflexivity.
Qed.

Lemma schedule_firstn (n m : nat) (timeout : Z) :
  schedule n timeout ++ [Nat.iter n doubled timeout]
  = firstn (S n) (schedule (S n + m) timeout).
Proof.
  revert timeout. induction n as [|n IH]; intros timeout; [reflexivity|].
  cbn [schedule app]. rewrite Nat.iter_succ_r, IH. reflexivity.
Qed.

Create Rewrite HintDb trace.
#[local] Hint Rewrite writes_of_app deadlines_of_app writes_of_reads
  deadlines_of_reads @app_nil_r : trace.

(** The events of one attempt. *)
Lemma writes_of_attempt (b : list byte) (to : addr) (timeout : Z) :
  writes_of [EvWriteTo b to; EvSetReadDeadline timeout] = [b].
Proof. reflexivity. Qed.

Lemma deadlines_of_attempt (b : list byte) (to : addr) (timeout : Z) :
  deadlines_of [EvWriteTo b to; EvSetReadDeadline timeout] = [timeout].
Proof. reflexivity. Qed.

Section Exchange.

(** One call [v.send(conn, to)], in the environment [w]. *)
Variables (w : world) (v : packet) (to : addr).

(** *** The receive loop *)

Lemma recvLoop_datagram (data : list byte) (raddr : addr)
  (rs : list read_outcome) (k : nat) (tr : list event)
  (r : list byte) (p : packet) (e : option error) :
  randRead w k = RandOk r ->
  decode data = Val (Some p, e) ->
  recvLoop w v (ReadOk data raddr :: rs) k tr
  = if negb (bytes_Equal (pkt_transId v) (pkt_transId p))
    then recvLoop w v rs (S k) (tr ++ [EvReadFrom])
    else (Val (LReturn (Some raddr, Some p, e)),
          mkState rs (S k) (tr ++ [EvReadFrom])).
Proof.
  intros Hr Hd. cbn [recvLoop]. rewrite Hr, decode_rand, Hd. reflexivity.
Qed.

(** A datagram of less than 24 bytes: [newPacketFromBytes] returns nil, and
    [pkt.transId] panics. *)
Lemma recvLoop_short_datagram (data : list byte) (raddr : addr)
  (rs : list read_outcome) (k : nat) (tr : list event) :
  (List.length data < 24)%nat ->
  recvLoop w v (ReadOk data raddr :: rs) k tr
  = (Panics NilDereference, mkState rs (S k) (tr ++ [EvReadFrom])).
Proof.
  intros Hshort. cbn [recvLoop].
  pose proof (readCount_range data) as Hc.
  rewrite reslice_ok by (rewrite ?readBuffer_cap; lia).
  cbn [bind]. rewrite newPacketFromBytes_short; [reflexivity|].
  cbn [s_len]. unfold readCount. lia.
Qed.

(** The receive loop only reads. *)
Lemma recvLoop_trace (rs : list read_outcome) :
  forall (k : nat) (tr : list event),
    exists m : nat,
      trace (snd (recvLoop w v rs k tr)) = tr ++ repeat EvReadFrom m.
Proof.
  induction rs as [|r rs IH]; intros k tr.
  - exists 0%nat. cbn. rewrite app_nil_r. reflexivity.
  - cbn [recvLoop].
    destruct r as [data raddr|[msg|[|] id|id]];
      try (exists 1%nat; reflexivity).
    destruct (bind _ _) as [[[p|] err]| |]; try (exists 1%nat; reflexivity).
    destruct (negb _); [|exists 1%nat; reflexivity].
    destruct (IH (S k) (tr ++ [EvReadFrom])) as [m Hm].
    exists (S m). rewrite Hm, <- app_assoc. reflexivity.
Qed.

(** What the receive loop returns is never nil, nil, nil. *)
Lemma recvLoop_returns (rs : list read_outcome) :
  forall (k : nat) (tr : list event) (r : result) (st : state),
    recvLoop w v rs k tr = (Val (LReturn r), st) -> r <> (None, None, None).
Proof.
  induction rs as [|r0 rs IH]; intros k tr r st; cbn [recvLoop].
  - discriminate.
  - destruct r0 as [data raddr|[msg|[|] id|id]]; try discriminate.
    + destruct (bind _ _) as [[[p|] err]| |]; try discriminate.
      destruct (negb _); [apply IH|].
      intros H. injection H as <- _. discriminate.
    + intros H. injection H as <- _. discriminate.
Qed.

(** *** The deadlines of any run *)

Lemma sendLoop_deadlines (n : nat) :
  forall (i : nat) (timeout : Z) (st : state),
    exists k : nat,
      (k <= n)%nat /\
      deadlines_of (trace (snd (sendLoop w v to n i timeout st)))
      = deadlines_of (trace st) ++ firstn k (schedule n timeout) /\
      (fst (sendLoop w v to n i timeout st) = Val (None, None, None) -> k = n).
Proof.
  induction n as [|n IH]; intros i timeout st.
  - exists 0%nat. cbn. rewrite app_nil_r. repeat split. lia.
  - cbn [sendLoop]. destruct (WriteTo w i) as [len [e|]].
    { exists 0%nat. cbn [snd fst trace firstn].
      rewrite deadlines_of_app. cbn. rewrite app_nil_r.
      repeat split; [lia | discriminate]. }
    destruct (negb _).
    { exists 0%nat. cbn [snd fst trace firstn].
      rewrite deadlines_of_app. cbn. rewrite app_nil_r.
      repeat split; [lia | discriminate]. }
    destruct (SetReadDeadline w i) as [e|].
    { exists 1%nat. cbn [snd fst trace firstn schedule].
      rewrite !deadlines_of_app. cbn. rewrite app_nil_r.
      repeat split; [lia | discriminate]. }
    cbn [pending reads_done trace].
    destruct (recvLoop_trace (pending st) (reads_done st)
                ((trace st ++ [EvWriteTo (bytes v) to])
                 ++ [EvSetReadDeadline timeout])) as [m Hm].
    pose proof (recvLoop_returns (pending st) (reads_done st)
                ((trace st ++ [EvWriteTo (bytes v) to])
                 ++ [EvSetReadDeadline timeout])) as Hret.
    assert (Hds : forall st3 : state,
               trace st3 = ((trace st ++ [EvWriteTo (bytes v) to])
                            ++ [EvSetReadDeadline timeout])
                           ++ repeat EvReadFrom m ->
               deadlines_of (trace st3) = deadlines_of (trace st) ++ [timeout]).
    { intros st3 ->. autorewrite with trace. reflexivity. }
    destruct (recvLoop _ _ _ _ _) as [[[|r]| |] st3]; cbn [snd] in Hm.
    + destruct (IH (S i) (doubled timeout) st3) as (k & Hk & Hd & Hex).
      exists (S k). fold (doubled timeout). rewrite Hd, (Hds st3 Hm).
      cbn [schedule firstn]. rewrite <- app_assoc.
      repeat split; [lia|]. intros H. f_equal. exact (Hex H).
    + exists 1%nat. cbn [fst snd schedule firstn]. rewrite (Hds st3 Hm).
      repeat split; [lia|]. intros H. injection H as ->.
      exfalso. exact (Hret _ _ eq_refl eq_refl).
    + exists 1%nat. cbn [fst snd schedule firstn]. rewrite (Hds st3 Hm).
      repeat split; [lia | discriminate].
    + exists 1%nat. cbn [fst snd schedule firstn]. rewrite (Hds st3 Hm).
      repeat split; [lia | discriminate].
Qed.

(** The trace of any run, attempt by attempt: each attempt that gets past
    its write arms its deadline and only then reads; a run ends inside such
    an attempt, or with a write that failed, or after the ninth attempt. *)
Lemma sendLoop_attempts (n : nat) :
  forall (i : nat) (timeout : Z) (st : state),
    exists (ms : list nat) (tail : list event),
      (List.length ms + List.length tail <= n)%nat /\
      trace (snd (sendLoop w v to n i timeout st))
      = trace st
        ++ flat_map (attempt (bytes v) to) (combine (schedule n timeout) ms)
        ++ tail /\
      (tail = [] \/ tail = [EvWriteTo (bytes v) to]) /\
      (fst (sendLoop w v to n i timeout st) = Val (None, None, None) ->
       List.length ms = n /\ tail = []).
Proof.
  induction n as [|n IH]; intros i timeout st.
  - exists [], []. cbn. rewrite app_nil_r. auto.
  - cbn [sendLoop]. destruct (WriteTo w i) as [len [e|]].
    { exists [], [EvWriteTo (bytes v) to]. cbn [snd fst trace].
      split; [cbn; lia|]. split; [reflexivity|].
      split; [right; reflexivity | discriminate]. }
    destruct (negb _).
    { exists [], [EvWriteTo (bytes v) to]. cbn [snd fst trace].
      split; [cbn; lia|]. split; [reflexivity|].
      split; [right; reflexivity | discriminate]. }
    destruct (SetReadDeadline w i) as [e|].
    { exists [0%nat], []. cbn [snd fst trace].
      split; [cbn; lia|]. split; [|split; [left; reflexivity | discriminate]].
      cbn [schedule combine flat_map attempt fst snd repeat].
      rewrite combine_nil, <- !app_assoc. reflexivity. }
    cbn [pending reads_done trace].
    destruct (recvLoop_trace (pending st) (reads_done st)
                ((trace st ++ [EvWriteTo (bytes v) to])
                 ++ [EvSetReadDeadline timeout])) as [m Hm].
    pose proof (recvLoop_returns (pending st) (reads_done st)
                ((trace st ++ [EvWriteTo (bytes v) to])
                 ++ [EvSetReadDeadline timeout])) as Hret.
    assert (Hone : forall st3 : state,
               trace st3 = ((trace st ++ [EvWriteTo (bytes v) to])
                            ++ [EvSetReadDeadline timeout])
                           ++ repeat EvReadFrom m ->
               trace st3
               = trace st
                 ++ flat_map (attempt (bytes v) to)
                      (combine (schedule (S n) timeout) [m])
                 ++ []).
    { intros st3 ->. cbn [schedule combine flat_map attempt fst snd].
      rewrite combine_nil. cbn [flat_map]. rewrite !app_nil_r, <- !app_assoc.
      reflexivity. }
    destruct (recvLoop _ _ _ _ _) as [[[|r]| |] st3]; cbn [snd] in Hm.
    + destruct (IH (S i) (doubled timeout) st3)
        as (ms & tail & Hlen & Htr & Ht & Hex).
      exists (m :: ms), tail. fold (doubled timeout). rewrite Htr, Hm.
      split; [cbn [List.length Nat.add]; lia|].
      split; [cbn [schedule combine flat_map attempt fst snd];
              rewrite <- !app_assoc; reflexivity|].
      split; [exact Ht|]. intros H. destruct (Hex H) as [Hl Hnil].
      split; [cbn [List.length]; f_equal; exact Hl | exact Hnil].
    + exists [m], []. cbn [fst snd]. rewrite (Hone st3 Hm).
      split; [cbn; lia|]. split; [reflexivity|]. split; [left; reflexivity|].
      intros H. injection H as ->. exfalso. exact (Hret _ _ eq_refl eq_refl).
    + exists [m], []. cbn [fst snd]. rewrite (Hone st3 Hm).
      split; [cbn; lia|]. split; [reflexivity|].
      split; [left; reflexivity | discriminate].
    + exists [m], []. cbn [fst snd]. rewrite (Hone st3 Hm).
      split; [cbn; lia|]. split; [reflexivity|].
      split; [left; reflexivity | discriminate].
Qed.

(** C5: the timeout starts at 100 and is [doubled] after each deadline is
    armed, which over nine attempts gives 100, 200, 400, 800, 1600, 1600,
    1600, 1600, 1600 milliseconds ([schedule]).  In every run of [send] the
    deadlines armed, in order, are the first [k] of these.  The calls on the
    connection come attempt by attempt: the [j]-th attempt that gets past
    its write consists of the write, then the deadline of [j]-th timeout of
    the list, then the reads of its receive phase ([attempt]), so that each
    deadline is armed after the write and before every read of its attempt;
    after these attempts comes at most one more write (one that failed),
    and no attempt beyond the ninth.  A run that ends with nil, nil, nil
    went through nine such attempts, with all nine deadlines. *)
Theorem send_backoff_schedule :
  schedule 9 100 = backoff /\
  (exists k : nat,
     (k <= 9)%nat /\
     deadlines_of (trace (snd (send w v to))) = firstn k backoff) /\
  (fst (send w v to) = Val (None, None, None) ->
   deadlines_of (trace (snd (send w v to))) = backoff) /\
  (exists (ms : list nat) (tail : list event),
     (List.length ms + List.length tail <= 9)%nat /\
     trace (snd (send w v to))
     = flat_map (attempt (bytes v) to) (combine backoff ms) ++ tail /\
     (tail = [] \/ tail = [EvWriteTo (bytes v) to]) /\
     (fst (send w v to) = Val (None, None, None) ->
      List.length ms = 9%nat /\ tail = [])).
Proof.
  split; [reflexivity|].
  destruct (sendLoop_deadlines 9 0 100 (mkState (ReadFrom w) 0 []))
    as (k & Hk & Hd & Hex).
  fold (send w v to) in Hd, Hex. cbn [trace deadlines_of flat_map app] in Hd.
  rewrite schedule_backoff in Hd. split; [|split].
  - exists k. split; assumption.
  - intros H. rewrite Hd, (Hex H). reflexivity.
  - destruct (sendLoop_attempts 9 0 100 (mkState (ReadFrom w) 0 []))
      as (ms & tail & Hlen & Htr & Ht & Hnil).
    fold (send w v to) in Htr, Hnil. cbn [trace app] in Htr.
    rewrite schedule_backoff in Htr.
    exists ms, tail. split; [exact Hlen|]. split; [exact Htr|].
    split; [exact Ht | exact Hnil].
Qed.

(** *** Attempts that end in a timeout *)

Lemma send_split (i : nat) :
  (i <= 9)%nat ->
  send w v to
  = sendLoop w v to (i + (9 - i)) 0 100 (mkState (ReadFrom w) 0 []).
Proof.
  intros Hi. unfold send. replace (i + (9 - i))%nat with 9%nat by lia.
  reflexivity.
Qed.

(** From here on [rand.Read] works. *)
Hypothesis Hrand : rand_works w.

Lemma recvLoop_unrelated (data : list byte) (raddr : addr)
  (rs : list read_outcome) (k : nat) (tr : list event) :
  unrelated v data ->
  recvLoop w v (ReadOk data raddr :: rs) k tr
  = recvLoop w v rs (S k) (tr ++ [EvReadFrom]).
Proof.
  intros (p & Hd & Hne). destruct (Hrand k) as [r Hr].
  rewrite (recvLoop_datagram data raddr rs k tr r p None Hr Hd).
  rewrite bytes_Equal_false by congruence. reflexivity.
Qed.

Lemma recvLoop_unrelated_all (ds : list (list byte * addr)) :
  Forall (fun d => unrelated v (fst d)) ds ->
  forall (rs : list read_outcome) (k : nat) (tr : list event),
    recvLoop w v (map datagram ds ++ rs) k tr
    = recvLoop w v rs (k + List.length ds)
               (tr ++ repeat EvReadFrom (List.length ds)).
Proof.
  intros Hall. induction Hall as [|d ds Hd _ IH]; intros rs k tr.
  - cbn. rewrite app_nil_r, Nat.add_0_r. reflexivity.
  - cbn [map app datagram List.length]. unfold datagram at 1.
    rewrite recvLoop_unrelated by assumption. rewrite IH.
    rewrite <- app_assoc. cbn [app repeat].
    replace (k + S (List.length ds))%nat with (S k + List.length ds)%nat by lia.
    reflexivity.
Qed.

Lemma recvLoop_phase (ph : list (list byte * addr) * nat)
  (rest : list read_outcome) (k : nat) (tr : list event) :
  Forall (fun d => unrelated v (fst d)) (fst ph) ->
  recvLoop w v (phase ph ++ rest) k tr
  = (Val LBreak,
     mkState rest (k + List.length (phase ph))
             (tr ++ repeat EvReadFrom (List.length (phase ph)))).
Proof.
  intros Hall. unfold phase. rewrite <- app_assoc.
  rewrite recvLoop_unrelated_all by assumption.
  cbn [app recvLoop]. rewrite <- app_assoc, repeat_snoc.
  rewrite length_app, length_map. cbn [List.length].
  rewrite !Nat.add_1_r, Nat.add_succ_r. reflexivity.
Qed.

Lemma recvLoop_reply (pre : list (list byte * addr)) (d : list byte)
  (raddr : addr) (p : packet) (rest : list read_outcome)
  (k : nat) (tr : list event) :
  Forall (fun d => unrelated v (fst d)) pre ->
  reply_to v d p ->
  recvLoop w v (map datagram pre ++ ReadOk d raddr :: rest) k tr
  = (Val (LReturn (Some raddr, Some p, None)),
     mkState rest (k + S (List.length pre))
             (tr ++ repeat EvReadFrom (S (List.length pre)))).
Proof.
  intros Hall [Hd Hid]. rewrite recvLoop_unrelated_all by assumption.
  destruct (Hrand (k + List.length pre)%nat) as [r Hr].
  rewrite (recvLoop_datagram d raddr rest _ _ r p None Hr Hd).
  rewrite Hid. rewrite (proj2 (bytes_Equal_true _ _) eq_refl). cbn [negb].
  rewrite <- app_assoc, repeat_snoc, Nat.add_succ_r. reflexivity.
Qed.

Lemma sendLoop_timeout (n i : nat) (timeout : Z) (st : state)
  (ph : list (list byte * addr) * nat) (rest : list read_outcome) :
  WriteTo w i = (Z.of_nat (List.length (bytes v)), None) ->
  SetReadDeadline w i = None ->
  Forall (fun d => unrelated v (fst d)) (fst ph) ->
  pending st = phase ph ++ rest ->
  sendLoop w v to (S n) i timeout st
  = sendLoop w v to n (S i) (doubled timeout)
      (mkState rest (reads_done st + List.length (phase ph))
         (trace st ++ [EvWriteTo (bytes v) to; EvSetReadDeadline timeout]
                   ++ repeat EvReadFrom (List.length (phase ph)))).
Proof.
  intros Hwr Hdl Hall Hp. cbn [sendLoop]. rewrite Hwr, Z.eqb_refl.
  cbn [negb]. rewrite Hdl. cbn [pending reads_done trace]. rewrite Hp.
  rewrite recvLoop_phase by assumption.
  rewrite <- !app_assoc. reflexivity.
Qed.

(** After attempts that all end in a timeout the loop goes on with the
    attempts that are left, the timeout doubled once for each. *)
Lemma sendLoop_timeouts (phases : list (list (list byte * addr) * nat)) :
  Forall (fun ph => Forall (fun d => unrelated v (fst d)) (fst ph)) phases ->
  forall (m i : nat) (timeout : Z) (st : state) (rest : list read_outcome),
    transport_works w v i (List.length phases) ->
    pending st = flat_map phase phases ++ rest ->
    exists tr : list event,
      sendLoop w v to (List.length phases + m) i timeout st
      = sendLoop w v to m (i + List.length phases)
          (Nat.iter (List.length phases) doubled timeout)
          (mkState rest (reads_done st + List.length (flat_map phase phases))
                   (trace st ++ tr)) /\
      writes_of tr = repeat (bytes v) (List.length phases) /\
      deadlines_of tr = schedule (List.length phases) timeout.
Proof.
  intros Hall m. induction Hall as [|ph phases Hph _ IH];
    intros i timeout st rest Htr Hp.
  - exists []. cbn in *. rewrite app_nil_r, !Nat.add_0_r.
    destruct st as [pend k tr]. cbn in *. subst pend. repeat split.
  - cbn [flat_map List.length] in *. rewrite <- app_assoc in Hp.
    unfold transport_works in Htr.
    destruct (Htr i) as [Hwr Hdl]; [lia|].
    cbn [Nat.add].
    rewrite (sendLoop_timeout _ i timeout st ph _ Hwr Hdl Hph Hp).
    destruct (IH (S i) (doubled timeout)
                (mkState (flat_map phase phases ++ rest)
                   (reads_done st + List.length (phase ph))
                   (trace st ++ [EvWriteTo (bytes v) to; EvSetReadDeadline timeout]
                             ++ repeat EvReadFrom (List.length (phase ph))))
                rest) as (tr & Hrun & Hwrs & Hdls).
    { intros j Hj. apply Htr. lia. }
    { reflexivity. }
    rewrite Hrun. cbn [reads_done trace].
    eexists. split.
    + rewrite <- !app_assoc, length_app, Nat.add_assoc.
      rewrite Nat.add_succ_r. cbn [Nat.add].
      rewrite <- Nat.iter_succ_r. reflexivity.
    + autorewrite with trace.
      rewrite writes_of_attempt, deadlines_of_attempt, Hwrs, Hdls.
      split; reflexivity.
Qed.

(** *** Exhaustion *)

(** C6: if [rand.Read] works, the nine attempts write the whole request
    and arm their deadline, and every receive phase ends in a
    deadline-exceeded timeout after datagrams that all parse and carry
    another transaction ID, then [send] returns nil, nil, nil after exactly
    nine writes of the serialized request (and nine deadlines, the backoff
    schedule), having consumed exactly the reads of the nine phases. *)
Theorem send_exhaustion (phases : list (list (list byte * addr) * nat))
  (rest : list read_outcome) :
  transport_works w v 0 9 ->
  List.length phases = 9%nat ->
  Forall (fun ph => Forall (fun d => unrelated v (fst d)) (fst ph)) phases ->
  ReadFrom w = flat_map phase phases ++ rest ->
  fst (send w v to) = Val (None, None, None) /\
  writes_of (trace (snd (send w v to))) = repeat (bytes v) 9 /\
  deadlines_of (trace (snd (send w v to))) = backoff /\
  pending (snd (send w v to)) = rest.
Proof.
  intros Htr Hlen Hall Hrs.
  destruct (sendLoop_timeouts phases Hall 0 0 100
              (mkState (ReadFrom w) 0 []) rest) as (tr & Hrun & Hwrs & Hdls).
  { rewrite Hlen. exact Htr. }
  { exact Hrs. }
  unfold send. rewrite Hlen in Hrun, Hwrs, Hdls.
  cbn [Nat.add] in Hrun. rewrite Hrun. cbn [sendLoop fst snd trace pending app].
  repeat split; assumption.
Qed.

(** *** Matching the transaction ID *)

(** C7: let attempts 0, ..., i-1 have ended in timeouts ([phases]); in
    attempt [i] let the datagrams [pre] arrive, which parse and carry other
    transaction IDs than the request's, and then the datagram [d] from
    [raddr], which parses as [p] with the request's transaction ID.  Then
    [send] returns [raddr] and [p] without error, having read [d] last, and
    has written the request and armed a deadline [i+1] times each: once in
    each attempt, and not again for the datagrams it discarded.  With
    [phases] empty this is the first attempt. *)
Theorem send_transaction_match
  (phases : list (list (list byte * addr) * nat))
  (pre : list (list byte * addr)) (d : list byte) (raddr : addr)
  (p : packet) (rest : list read_outcome) :
  (List.length phases < 9)%nat ->
  transport_works w v 0 (S (List.length phases)) ->
  Forall (fun ph => Forall (fun d => unrelated v (fst d)) (fst ph)) phases ->
  Forall (fun d => unrelated v (fst d)) pre ->
  reply_to v d p ->
  ReadFrom w = flat_map phase phases ++ map datagram pre ++ ReadOk d raddr :: rest ->
  fst (send w v to) = Val (Some raddr, Some p, None) /\
  pending (snd (send w v to)) = rest /\
  writes_of (trace (snd (send w v to)))
  = repeat (bytes v) (S (List.length phases)) /\
  deadlines_of (trace (snd (send w v to)))
  = firstn (S (List.length phases)) backoff /\
  reads_done (snd (send w v to))
  = (List.length (flat_map phase phases) + S (List.length pre))%nat.
Proof.
  intros Hlt Htr Hall Hpre Hrep Hrs.
  destruct (sendLoop_timeouts phases Hall (9 - List.length phases)
              0 100 (mkState (ReadFrom w) 0 [])
              (map datagram pre ++ ReadOk d raddr :: rest))
    as (tr & Hrun & Hwrs & Hdls).
  { intros j Hj. apply Htr. lia. }
  { exact Hrs. }
  rewrite (send_split (List.length phases)) by lia.
  rewrite Hrun.
  destruct (9 - List.length phases)%nat as [|m] eqn:Em; [lia|].
  cbn [sendLoop Nat.add reads_done trace pending app].
  destruct (Htr (List.length phases)) as [Hwr Hdl]; [lia|].
  rewrite Hwr, Z.eqb_refl. cbn [negb]. rewrite Hdl.
  rewrite (recvLoop_reply pre d raddr p rest _ _ Hpre Hrep).
  cbn [fst snd pending trace reads_done].
  repeat split.
  - autorewrite with trace. rewrite Hwrs.
    cbn [writes_of flat_map app]. apply repeat_snoc.
  - autorewrite with trace. rewrite Hdls.
    cbn [deadlines_of flat_map app]. rewrite <- schedule_backoff.
    replace 9%nat with (S (List.length phases) + m)%nat by lia.
    apply schedule_firstn.
Qed.

(** *** Write failures *)

(** C9: let attempts 0, ..., i-1 have ended in timeouts ([phases]), and let
    the write of attempt [i] return an error, or a count that is not the
    length of the serialized request.  Then [send] returns nil, nil and an
    error (the transport's own, or "Error in sending data."), and that
    write was its last action: [i+1] writes in all, only the [i] deadlines
    of the earlier attempts, and no read after them. *)
Theorem send_write_failure (phases : list (list (list byte * addr) * nat))
  (rest : list read_outcome) (count : Z) (err : option error) :
  (List.length phases < 9)%nat ->
  transport_works w v 0 (List.length phases) ->
  Forall (fun ph => Forall (fun d => unrelated v (fst d)) (fst ph)) phases ->
  ReadFrom w = flat_map phase phases ++ rest ->
  WriteTo w (List.length phases) = (count, err) ->
  err <> None \/ count <> Z.of_nat (List.length (bytes v)) ->
  exists e : error,
    fst (send w v to) = Val (None, None, Some e) /\
    (forall e' : error, err = Some e' -> e = e') /\
    (err = None -> e = ErrorString "Error in sending data.") /\
    writes_of (trace (snd (send w v to)))
    = repeat (bytes v) (S (List.length phases)) /\
    deadlines_of (trace (snd (send w v to)))
    = firstn (List.length phases) backoff /\
    pending (snd (send w v to)) = rest.
Proof.
  intros Hlt Htr Hall Hrs Hwr Hfail.
  destruct (sendLoop_timeouts phases Hall (9 - List.length phases)
              0 100 (mkState (ReadFrom w) 0 []) rest)
    as (tr & Hrun & Hwrs & Hdls).
  { exact Htr. }
  { exact Hrs. }
  assert (Hsched : schedule (List.length phases) 100
                   = firstn (List.length phases) backoff).
  { rewrite <- schedule_backoff.
    replace 9%nat with (List.length phases + (9 - List.length phases))%nat
      by lia.
    symmetry. apply schedule_prefix. }
  rewrite (send_split (List.length phases)) by lia.
  rewrite Hrun.
  destruct (9 - List.length phases)%nat as [|m] eqn:Em; [lia|].
  cbn [sendLoop Nat.add reads_done trace pending app].
  rewrite Hwr.
  assert (Htrace : writes_of (tr ++ [EvWriteTo (bytes v) to])
                   = repeat (bytes v) (S (List.length phases)) /\
                   deadlines_of (tr ++ [EvWriteTo (bytes v) to])
                   = firstn (List.length phases) backoff).
  { rewrite writes_of_app, deadlines_of_app, Hwrs, Hdls, Hsched.
    cbn [writes_of deadlines_of flat_map app]. rewrite !app_nil_r.
    split; [apply repeat_snoc | reflexivity]. }
  destruct Htrace as [Hw1 Hd1].
  destruct err as [e|].
  - exists e. cbn [fst snd trace pending].
    repeat split; try assumption; congruence.
  - destruct Hfail as [Hfail|Hfail]; [congruence|].
    apply Z.eqb_neq in Hfail. rewrite Hfail. cbn [negb].
    eexists. cbn [fst snd trace pending].
    repeat split; try assumption; congruence.
Qed.

End Exchange.

(** *** Runs *)

Lemma scripted_rand_works (rs : list read_outcome) : rand_works (scripted rs).
Proof. intros k. eexists. reflexivity. Qed.

Lemma scripted_transport_works (rs : list read_outcome) (i n : nat) :
  transport_works (scripted rs) request i n.
Proof. intros j _. split; reflexivity. Qed.

Lemma stranger_unrelated : unrelated request strangerDatagram.
Proof.
  eexists. split; [vm_compute; reflexivity | vm_compute; discriminate].
Qed.

Lemma silentPhases_unrelated :
  Forall (fun ph => Forall (fun d => unrelated request (fst d)) (fst ph))
         silentPhases.
Proof. repeat constructor. exact stranger_unrelated. Qed.

Lemma send_backoff_schedule_witness :
  deadlines_of (trace (snd (send (scripted (flat_map phase silentPhases))
                                 request 3%nat)))
  = backoff /\
  exists ms : list nat,
    List.length ms = 9%nat /\
    trace (snd (send (scripted (flat_map phase silentPhases)) request 3%nat))
    = flat_map (attempt (bytes request) 3%nat) (combine backoff ms).
Proof.
  destruct (send_backoff_schedule (scripted (flat_map phase silentPhases))
              request 3%nat)
    as (_ & _ & Hall & ms & tail & _ & Htr & _ & Hnil).
  assert (H : fst (send (scripted (flat_map phase silentPhases)) request 3%nat)
              = Val (None, None, None)) by (vm_compute; reflexivity).
  split; [exact (Hall H)|].
  destruct (Hnil H) as [Hms Htail]. exists ms. split; [exact Hms|].
  rewrite Htr, Htail. apply app_nil_r.
Defined.

Lemma send_exhaustion_witness :
  fst (send (scripted (flat_map phase silentPhases)) request 3%nat)
  = Val (None, None, None) /\
  writes_of (trace (snd (send (scripted (flat_map phase silentPhases))
                              request 3%nat)))
  = repeat (bytes request) 9.
Proof.
  destruct (send_exhaustion (scripted (flat_map phase silentPhases)) request
              3%nat (scripted_rand_works _) silentPhases [])
    as (Hres & Hwrs & _ & _).
  - apply scripted_transport_works.
  - reflexivity.
  - exact silentPhases_unrelated.
  - rewrite app_nil_r. reflexivity.
  - split; assumption.
Defined.

Lemma send_transaction_match_witness :
  fst (send (scripted (phase ([], 0%nat)
                       ++ [ReadOk strangerDatagram 7%nat;
                           ReadOk replyDatagram 8%nat]))
            request 3%nat)
  = Val (Some 8%nat, Some replyPacket, None).
Proof.
  apply (send_transaction_match
           (scripted (phase ([], 0%nat)
                      ++ [ReadOk strangerDatagram 7%nat;
                          ReadOk replyDatagram 8%nat]))
           request 3%nat (scripted_rand_works _)
           [([], 0%nat)] [(strangerDatagram, 7%nat)]
           replyDatagram 8%nat replyPacket []).
  - cbn. lia.
  - apply scripted_transport_works.
  - repeat constructor.
  - repeat constructor. exact stranger_unrelated.
  - split; vm_compute; reflexivity.
  - reflexivity.
Defined.

Lemma send_write_failure_witness :
  fst (send (shortWrite (phase ([], 0%nat))) request 3%nat)
  = Val (None, None, Some (ErrorString "Error in sending data.")) /\
  writes_of (trace (snd (send (shortWrite (phase ([], 0%nat))) request 3%nat)))
  = [bytes request; bytes request].
Proof.
  destruct (send_write_failure (shortWrite (phase ([], 0%nat))) request 3%nat
              (fun k => ex_intro _ (repeat x05 12) eq_refl)
              [([], 0%nat)] [] (Z.of_nat (List.length (bytes request)) - 1) None)
    as (e & Hres & _ & He & Hwrs & _).
  - cbn. lia.
  - intros j Hj. cbn in Hj. assert (j = 0%nat) as -> by lia.
    split; reflexivity.
  - repeat constructor.
  - reflexivity.
  - reflexivity.
  - right. vm_compute. discriminate.
  - rewrite (He eq_refl) in Hres. split; assumption.
Defined.

(** C4 at its failing input: the first datagram read is one byte long, a
    reply to the request is waiting behind it.  [newPacketFromBytes]
    returns nil and an error, [send] evaluates [pkt.transId] on the nil
    packet before it looks at the error, and panics; the reply is never
    read. *)
Theorem send_short_datagram_panics :
  send (scripted [ReadOk [x00] 7%nat; ReadOk replyDatagram 8%nat]) request 3%nat
  = (Panics NilDereference,
     mkState [ReadOk replyDatagram 8%nat] 1
             [EvWriteTo (bytes request) 3%nat; EvSetReadDeadline 100;
              EvReadFrom]).
Proof. vm_compute. reflexivity. Qed.

(** ** The header's length field and the attribute loop *)

Lemma poke_length (i : nat) (b : byte) (l : list byte) :
  List.length (poke i b l) = List.length l.
Proof.
  revert i. induction l as [|x l IH]; intros [|i]; cbn; try reflexivity.
  rewrite IH. reflexivity.
Qed.

Lemma poke_skipn (i j : nat) (b : byte) (l : list byte) :
  (i < j)%nat -> skipn j (poke i b l) = skipn j l.
Proof.
  revert i j. induction l as [|x l IH]; intros i j Hij.
  - destruct i; reflexivity.
  - destruct j as [|j]; [lia|]. destruct i as [|i]; cbn; [reflexivity|].
    apply IH. lia.
Qed.

Lemma poke_nth (i j : nat) (b : byte) (l : list byte) :
  (j < i)%nat -> nth j (poke i b l) x00 = nth j l x00.
Proof.
  revert i j. induction l as [|x l IH]; intros i j Hij.
  - destruct i; reflexivity.
  - destruct i as [|i]; [lia|]. destruct j as [|j]; cbn; [reflexivity|].
    apply IH. lia.
Qed.

Lemma withLength_length (data : list byte) (hi lo : byte) :
  List.length (withLength data hi lo) = List.length data.
Proof. unfold withLength. rewrite !poke_length. reflexivity. Qed.

Lemma withLength_skipn (data : list byte) (hi lo : byte) (j : nat) :
  (4 <= j)%nat -> skipn j (withLength data hi lo) = skipn j data.
Proof.
  intros Hj. unfold withLength. rewrite !poke_skipn by lia. reflexivity.
Qed.

Lemma withLength_nth (data : list byte) (hi lo : byte) (j : nat) :
  (j < 2)%nat -> nth j (withLength data hi lo) x00 = nth j data x00.
Proof.
  intros Hj. unfold withLength. rewrite !poke_nth by lia. reflexivity.
Qed.

Lemma reslice_same_tail (s s' : slice) (lo hi : Z) :
  same_tail s s' -> 4 <= lo -> reslice s lo hi = reslice s' lo hi.
Proof.
  intros (_ & Hcap & Htail) Hlo. unfold reslice. rewrite Hcap.
  rewrite (Htail (Z.to_nat lo)) by lia. reflexivity.
Qed.

Lemma same_outcome_refl_fail (r : run (option packet * option error)) :
  (forall p e, r <> Val (Some p, e)) -> same_outcome r r.
Proof.
  intros H. destruct r as [[[p|] e]| |]; cbn; try reflexivity.
  exfalso. exact (H p e eq_refl).
Qed.

Lemma walk_same_tail (fuel : nat) (s s' : slice) :
  same_tail s s' -> uint16 (s_len s) <= 65532 ->
  forall (pos : Z) (p q : packet),
    4 <= pos -> same_but_length p q ->
    same_outcome (walk fuel s pos p) (walk fuel s' pos q).
Proof.
  intros Hst Hu. pose proof Hst as (Hlen & _ & _).
  induction fuel as [|fuel IH]; intros pos p q Hpos Hpq; cbn [walk];
    rewrite <- Hlen; destruct (pos <? uint16 (s_len s)) eqn:E;
    try (cbn; split; [exact Hpq | reflexivity]); [exact I|].
  apply Z.ltb_lt in E.
  rewrite !(uint16_small (pos + 2)), !(uint16_small (pos + 4)) by lia.
  rewrite <- !(reslice_same_tail s s') by (assumption || lia).
  destruct (reslice s pos (pos + 2)) as [b| |]; cbn [bind same_outcome];
    [|reflexivity|exact I].
  destruct (Uint16 b) as [types| |]; cbn [bind same_outcome];
    [|reflexivity|exact I].
  destruct (reslice s (pos + 2) (pos + 4)) as [b'| |]; cbn [bind same_outcome];
    [|reflexivity|exact I].
  destruct (Uint16 b') as [length| |] eqn:El; cbn [bind same_outcome];
    [|reflexivity|exact I].
  apply Uint16_range in El.
  destruct (uint16 (pos + 4 + length) >? uint16 (s_len s)) eqn:Ec;
    [reflexivity|].
  rewrite Z.gtb_ltb in Ec. apply Z.ltb_ge in Ec.
  rewrite <- (reslice_same_tail s s') by (assumption || lia).
  destruct (reslice s (pos + 4) (uint16 (pos + 4 + length))) as [value| |] eqn:Ev;
    cbn [bind same_outcome]; [|reflexivity|exact I].
  apply reslice_Val in Ev. destruct Ev as (Hlo & _ & _).
  destruct (advance_bounds pos length (uint16 (s_len s)))
    as (_ & _ & _ & Hnext & _ & Ha); try lia.
  { rewrite (uint16_small (pos + 4)) by lia. lia. }
  rewrite Hnext. apply IH; [lia|].
  destruct Hpq as (Ht & Hi & Hat). unfold same_but_length.
  cbn [addAttribute pkt_types pkt_transId pkt_attributes].
  rewrite Ht, Hi, Hat. repeat split.
Qed.

Lemma contents_length (s v : slice) (lo hi : Z) :
  reslice s lo hi = Val v -> Z.of_nat (List.length (contents v)) = hi - lo.
Proof.
  intros H. apply reslice_Val in H. destruct H as (Hlo & Hhi & ->).
  unfold contents, cap in *. cbn [s_arr s_len].
  rewrite length_firstn, length_skipn. lia.
Qed.

Lemma walk_covers (fuel : nat) (s : slice) :
  uint16 (s_len s) <= 65532 ->
  forall (pos : Z) (pkt p : packet) (e : option error),
    0 <= pos -> uint16_ok (pkt_length pkt) ->
    walk fuel s pos pkt = Val (Some p, e) ->
    exists l : list attribute,
      pkt_attributes p = pkt_attributes pkt ++ l /\
      pkt_length p = uint16 (pkt_length pkt + attrsLength l) /\
      uint16 (s_len s) <= pos + attrsLength l /\
      pkt_types p = pkt_types pkt /\ pkt_transId p = pkt_transId pkt /\
      e = None.
Proof.
  intros Hu. induction fuel as [|fuel IH]; intros pos pkt p e Hpos Hok;
    cbn [walk]; destruct (pos <? uint16 (s_len s)) eqn:E; try discriminate.
  - intros H. injection H as <- <-. exists []. apply Z.ltb_ge in E.
    cbn [attrsLength fold_right]. rewrite app_nil_r, !Z.add_0_r.
    rewrite uint16_small by exact Hok. repeat split. exact E.
  - apply Z.ltb_lt in E.
    destruct (reslice s pos (uint16 (pos + 2))) as [b| |];
      cbn [bind]; try discriminate.
    destruct (Uint16 b) as [types| |]; cbn [bind]; try discriminate.
    destruct (reslice s (uint16 (pos + 2)) (uint16 (pos + 4))) as [b'| |];
      cbn [bind]; try discriminate.
    destruct (Uint16 b') as [length| |] eqn:El; cbn [bind]; try discriminate.
    apply Uint16_range in El.
    destruct (uint16 (pos + 4 + length) >? uint16 (s_len s)) eqn:Ec;
      [discriminate|].
    rewrite Z.gtb_ltb in Ec. apply Z.ltb_ge in Ec.
    destruct (reslice s (uint16 (pos + 4)) (uint16 (pos + 4 + length)))
      as [value| |] eqn:Ev; cbn [bind]; try discriminate.
    pose proof (contents_length _ _ _ _ Ev) as Hcl.
    apply reslice_Val in Ev. destruct Ev as (Hlo & _ & _).
    destruct (advance_bounds pos length (uint16 (s_len s)))
      as (_ & H4 & Hsum & Hnext & _ & Ha); try lia.
    rewrite Hnext. intros Hw.
    apply IH in Hw; [|lia|cbn [addAttribute pkt_length]; apply uint16_range].
    destruct Hw as (l & Hat & Hl & Hc & Ht & Hi & He).
    assert (Hal : attr_length (newAttribute types (contents value)) = length).
    { cbn [newAttribute attr_length]. rewrite Hcl, H4, Hsum.
      replace (pos + 4 + length - (pos + 4)) with length by lia.
      apply uint16_small. lia. }
    exists (newAttribute types (contents value) :: l).
    cbn [addAttribute pkt_attributes pkt_length pkt_types pkt_transId] in *.
    cbn [attrsLength fold_right]. fold (attrsLength l).
    rewrite Hal in *. rewrite <- app_assoc in Hat.
    repeat split; try assumption; [|lia].
    rewrite Hl, uint16_add_r, uint16_add_l. f_equal. lia.
  - intros H. injection H as <- <-. exists []. apply Z.ltb_ge in E.
    cbn [attrsLength fold_right]. rewrite app_nil_r, !Z.add_0_r.
    rewrite uint16_small by exact Hok. repeat split. exact E.
Qed.

Lemma Uint16_at (arr : list byte) (lo : nat) :
  Uint16 {| s_arr := skipn lo arr; s_len := 2 |}
  = Val (be16 (nth lo arr x00) (nth (S lo) arr x00)).
Proof.
  unfold Uint16, index. cbn [s_len s_arr Z.leb Z.ltb Z.compare Pos.compare
    Pos.compare_cont andb bind].
  rewrite !nth_skipn. change (Z.to_nat 0) with 0%nat.
  change (Z.to_nat 1) with 1%nat. rewrite Nat.add_0_r, Nat.add_1_r.
  reflexivity.
Qed.

Lemma newPacketFromBytes_header (r : list byte) (fuel : nat) (s : slice) :
  24 <= s_len s -> s_len s <= cap s ->
  newPacketFromBytes (RandOk r) fuel s = walk fuel s 20 (headerOf (s_arr s)).
Proof.
  intros Hlen Hcap. unfold newPacketFromBytes.
  destruct (s_len s <? 24) eqn:E; [apply Z.ltb_lt in E; lia|].
  cbn [newPacket pkt_attributes].
  rewrite !reslice_ok by lia. cbn [bind].
  change (2 - 0) with 2. change (4 - 2) with 2.
  change (Z.to_nat 0) with 0%nat. change (Z.to_nat 2) with 2%nat.
  rewrite !Uint16_at. cbn [bind]. reflexivity.
Qed.

Lemma slice_of_cap (data slack : list byte) :
  s_len (slice_of data slack) <= cap (slice_of data slack).
Proof. unfold cap, slice_of. cbn [s_arr s_len]. rewrite length_app. lia. Qed.

Lemma withLength_same_tail (data slack : list byte) (hi lo : byte) :
  same_tail (slice_of data slack) (slice_of (withLength data hi lo) slack).
Proof.
  unfold same_tail, cap, slice_of. cbn [s_arr s_len].
  rewrite !length_app, withLength_length. repeat split.
  intros j Hj. rewrite !skipn_app, withLength_length, withLength_skipn by lia.
  reflexivity.
Qed.

Lemma withLength_header (data slack : list byte) (hi lo : byte) :
  (24 <= List.length data)%nat ->
  same_but_length (headerOf (data ++ slack))
                  (headerOf (withLength data hi lo ++ slack)).
Proof.
  intros Hlen. unfold same_but_length, headerOf.
  cbn [pkt_types pkt_transId pkt_attributes].
  rewrite !(app_nth1 (withLength data hi lo)), !(app_nth1 data)
    by (rewrite ?withLength_length; lia).
  rewrite !withLength_nth by lia.
  rewrite !skipn_app, withLength_length, withLength_skipn by lia.
  repeat split.
Qed.

(** C10, as stated, fails for a buffer of 65533 bytes: after the attribute
    at offset 65528 the 16-bit position wraps to 0, the header itself is
    read as an attribute, and the length field decides how decoding fails:
    with 0xFFFF a panic, with 0xFFFA a framing error. *)
Lemma newPacketFromBytes_length_read_on_wrap :
  wrapBuffer xff xff = withLength (wrapBuffer xff xfa) xff xff /\
  newPacketFromBytes (RandOk []) 3 (slice_of (wrapBuffer xff xfa) [])
  = Val (None, Some (ErrorString "Received data format mismatch.")) /\
  newPacketFromBytes (RandOk []) 3 (slice_of (wrapBuffer xff xff) [])
  = Panics (SliceBounds 4 3 65533) /\
  ~ same_outcome
      (newPacketFromBytes (RandOk []) 3 (slice_of (wrapBuffer xff xfa) []))
      (newPacketFromBytes (RandOk []) 3
         (slice_of (withLength (wrapBuffer xff xfa) xff xff) [])).
Proof.
  split; [reflexivity|].
  split; [vm_compute; reflexivity|].
  split; [vm_compute; reflexivity|].
  vm_compute. exact (fun H => H).
Qed.

(** C10 (amended): for every input buffer whose length modulo 65536 is at
    most 65532, [newPacketFromBytes] walks the attributes without regard
    to the length field of the header: putting any two bytes in that field
    changes neither the type, the transaction ID and the attributes of the
    packet returned, nor whether and how decoding fails; and when decoding
    succeeds the attributes decoded reach from offset 20 to the end of the
    buffer (its length modulo 65536).  So bytes behind the declared
    attribute section are decoded as attributes ([undeclaredAttribute]),
    and can cause a framing error where the declared section alone decodes
    ([trailingBytes]). *)
Theorem newPacketFromBytes_ignores_length (rnd : rand_outcome) (fuel : nat)
  (data slack : list byte) (hi lo : byte) :
  uint16 (Z.of_nat (List.length data)) <= 65532 ->
  same_outcome
    (newPacketFromBytes rnd fuel (slice_of data slack))
    (newPacketFromBytes rnd fuel (slice_of (withLength data hi lo) slack)) /\
  (forall (p : packet) (e : option error),
     newPacketFromBytes rnd fuel (slice_of data slack) = Val (Some p, e) ->
     uint16 (Z.of_nat (List.length data))
     <= 20 + attrsLength (pkt_attributes p)) /\
  (exists p : packet,
     newPacketFromBytes (RandOk []) 1 (slice_of undeclaredAttribute [])
     = Val (Some p, None) /\
     pkt_attributes p = [newAttribute 1 [xc0; x00; x02; x01]]) /\
  (exists p : packet,
     newPacketFromBytes (RandOk []) 1 (slice_of (firstn 24 trailingBytes) [])
     = Val (Some p, None) /\
     pkt_attributes p = [newAttribute 1 []]) /\
  newPacketFromBytes (RandOk []) 2 (slice_of trailingBytes [])
  = Val (None, Some (ErrorString "Received data format mismatch.")).
Proof.
  intros Hu. split; [|split].
  - destruct (Z_lt_ge_dec (Z.of_nat (List.length data)) 24) as [Hs|Hl].
    + rewrite !newPacketFromBytes_short
        by (cbn [slice_of s_len]; rewrite ?withLength_length; lia).
      reflexivity.
    + destruct rnd as [r|e].
      * rewrite !newPacketFromBytes_header
          by (try apply slice_of_cap; cbn [slice_of s_len];
              rewrite ?withLength_length; lia).
        apply walk_same_tail.
        -- apply withLength_same_tail.
        -- exact Hu.
        -- lia.
        -- apply withLength_header. lia.
      * unfold newPacketFromBytes. cbn [slice_of s_len newPacket].
        rewrite withLength_length.
        destruct (Z.of_nat (List.length data) <? 24); reflexivity.
  - intros p e Hdec.
    destruct (Z_lt_ge_dec (Z.of_nat (List.length data)) 24) as [Hs|Hl].
    { rewrite newPacketFromBytes_short in Hdec by (cbn [slice_of s_len]; lia).
      discriminate. }
    destruct rnd as [r|e'].
    + rewrite newPacketFromBytes_header in Hdec
        by (try apply slice_of_cap; cbn [slice_of s_len]; lia).
      apply walk_covers in Hdec; try assumption; try lia.
      * destruct Hdec as (l & Hat & _ & Hc & _). cbn [headerOf pkt_attributes app] in Hat.
        rewrite Hat. exact Hc.
      * cbn [headerOf pkt_length]. apply be16_range.
    + unfold newPacketFromBytes in Hdec. cbn [slice_of s_len newPacket] in Hdec.
      destruct (Z.of_nat (List.length data) <? 24); discriminate.
  - split; [eexists; split; vm_compute; reflexivity|].
    split; [eexists; split; vm_compute; reflexivity|].
    vm_compute. reflexivity.
Qed.

Lemma newPacketFromBytes_ignores_length_witness :
  same_outcome
    (newPacketFromBytes (RandOk []) 2 (slice_of trailingBytes []))
    (newPacketFromBytes (RandOk []) 2
       (slice_of (withLength trailingBytes x00 x08) [])).
Proof.
  apply (newPacketFromBytes_ignores_length (RandOk []) 2 trailingBytes []
           x00 x08).
  vm_compute. discriminate.
Defined.

(** ** What does round-trip *)

Lemma be16_PutUint16 (v : Z) :
  uint16_ok v -> be16 (byte_of (Z.shiftr v 8)) (byte_of v) = v.
Proof.
  intros Hv. unfold uint16_ok in Hv. rewrite be16_eq, !byte_val_of.
  rewrite Z.shiftr_div_pow2 by lia. change (2 ^ 8) with 256.
  Z.div_mod_to_equations. lia.
Qed.

Lemma walk_step_ok (fuel : nat) (s : slice) (pos : Z) (pkt : packet)
  (types length : Z) (tail : list byte) :
  0 <= pos -> uint16_ok types -> uint16_ok length ->
  s_len s <= 65532 -> s_len s <= cap s ->
  pos + 4 + length <= s_len s ->
  skipn (Z.to_nat pos) (s_arr s) = PutUint16 types ++ PutUint16 length ++ tail ->
  walk (S fuel) s pos pkt
  = walk fuel s (pos + 4 + align length)
         (addAttribute pkt (newAttribute types (firstn (Z.to_nat length) tail))).
Proof.
  intros Hpos Ht Hl Hu Hcap Hfit Hsk. unfold uint16_ok in *. cbn [walk].
  rewrite (uint16_small (s_len s)) by lia.
  destruct (pos <? s_len s) eqn:E; [|apply Z.ltb_ge in E; lia].
  rewrite (uint16_small (pos + 2)), (uint16_small (pos + 4)) by lia.
  assert (Hn : forall i : nat,
             nth (Z.to_nat pos + i) (s_arr s) x00
             = nth i (PutUint16 types ++ PutUint16 length ++ tail) x00).
  { intros i. rewrite <- Hsk, nth_skipn. reflexivity. }
  assert (H0 : nth (Z.to_nat pos) (s_arr s) x00 = byte_of (Z.shiftr types 8)).
  { rewrite <- (Nat.add_0_r (Z.to_nat pos)). apply Hn. }
  assert (H1 : nth (S (Z.to_nat pos)) (s_arr s) x00 = byte_of types).
  { rewrite <- Nat.add_1_r. apply Hn. }
  assert (H2 : nth (Z.to_nat (pos + 2)) (s_arr s) x00
               = byte_of (Z.shiftr length 8)).
  { replace (Z.to_nat (pos + 2)) with (Z.to_nat pos + 2)%nat by lia. apply Hn. }
  assert (H3 : nth (S (Z.to_nat (pos + 2))) (s_arr s) x00 = byte_of length).
  { replace (S (Z.to_nat (pos + 2))) with (Z.to_nat pos + 3)%nat by lia.
    apply Hn. }
  rewrite (reslice_ok s pos (pos + 2)) by lia. cbn [bind].
  replace (pos + 2 - pos) with 2 by lia.
  rewrite Uint16_at. cbn [bind].
  rewrite (reslice_ok s (pos + 2) (pos + 4)) by lia. cbn [bind].
  replace (pos + 4 - (pos + 2)) with 2 by lia.
  rewrite Uint16_at. cbn [bind].
  rewrite H0, H1, H2, H3, !be16_PutUint16 by assumption.
  rewrite (uint16_small (pos + 4 + length)) by lia.
  destruct (pos + 4 + length >? s_len s) eqn:Ec;
    [rewrite Z.gtb_ltb in Ec; apply Z.ltb_lt in Ec; lia|].
  rewrite reslice_ok by lia. cbn [bind].
  destruct (align_small length) as (Ha & _); [lia|].
  rewrite (uint16_small (align length + 4)) by lia.
  rewrite (uint16_small (pos + (align length + 4))) by lia.
  replace (pos + (align length + 4)) with (pos + 4 + align length) by lia.
  f_equal. f_equal. f_equal. unfold contents. cbn [s_arr s_len].
  replace (Z.to_nat (pos + 4)) with (4 + Z.to_nat pos)%nat by lia.
  rewrite <- skipn_skipn, Hsk. cbn [PutUint16 app skipn].
  f_equal. lia.
Qed.

Lemma newAttribute_of (a : attribute) (rest : list byte) :
  attr_declared a ->
  newAttribute (attr_types a)
    (firstn (Z.to_nat (attr_length a)) (attr_value a ++ rest)) = a.
Proof.
  intros [Hr Hd]. destruct a as [t n value]. cbn [attr_types attr_length attr_value] in *.
  subst n. rewrite Nat2Z.id, firstn_app, firstn_all, Nat.sub_diag.
  cbn [firstn]. rewrite app_nil_r. unfold newAttribute.
  rewrite uint16_small by exact Hr. reflexivity.
Qed.

Lemma walk_attributes (s : slice) (slack : list byte) (l : list attribute) :
  Forall (fun a => attr_ok a /\ attr_aligned a) l ->
  s_len s <= 65532 -> s_len s <= cap s ->
  forall (fuel : nat) (pre : list byte) (pkt : packet),
    s_arr s = pre ++ flat_map attributeBytes l ++ slack ->
    s_len s = Z.of_nat (List.length pre + List.length (flat_map attributeBytes l)) ->
    (List.length l <= fuel)%nat ->
    walk fuel s (Z.of_nat (List.length pre)) pkt
    = Val (Some (fold_left addAttribute l pkt), None).
Proof.
  intros Hall Hu Hcap.
  induction Hall as [|a l [[Hty Hdecl] Hal] _ IH]; intros fuel pre pkt Harr Hlen Hf.
  - cbn [flat_map List.length fold_left] in *. rewrite Nat.add_0_r in Hlen.
    assert (Hend : (Z.of_nat (List.length pre) <? uint16 (s_len s)) = false).
    { rewrite uint16_small by lia. apply Z.ltb_ge. lia. }
    destruct fuel; cbn [walk]; rewrite Hend; reflexivity.
  - destruct fuel as [|fuel]; [cbn in Hf; lia|].
    cbn [flat_map fold_left List.length] in *.
    rewrite length_app, attributeBytes_length in Hlen.
    pose proof Hdecl as [Hr Hd]. unfold uint16_ok, attr_aligned in *.
    destruct (align_small (attr_length a)) as (_ & _ & Heq).
    { apply Z.mod_divide in Hal; [|lia]. destruct Hal as [q Hq]. lia. }
    rewrite (walk_step_ok fuel s _ pkt (attr_types a) (attr_length a)
               (attr_value a ++ flat_map attributeBytes l ++ slack));
      try assumption; try lia.
    + rewrite newAttribute_of by exact Hdecl. rewrite (Heq Hal).
      replace (Z.of_nat (List.length pre) + 4 + attr_length a)
        with (Z.of_nat (List.length (pre ++ attributeBytes a)))
        by (rewrite length_app, attributeBytes_length; lia).
      apply IH.
      * rewrite Harr, <- !app_assoc. reflexivity.
      * rewrite Hlen, length_app, attributeBytes_length. lia.
      * lia.
    + rewrite Nat2Z.id, Harr, skipn_app, skipn_all, Nat.sub_diag.
      cbn [skipn app]. unfold attributeBytes. rewrite <- !app_assoc.
      reflexivity.
Qed.

(** The extent of the round trip: a packet with a 16-byte transaction ID
    and at least one attribute, all values of the declared lengths and
    these multiples of 4, serialized to at most 65532 bytes, decodes to
    the same type, transaction ID and attributes; its length field comes
    back as the sent field plus the size of the attributes. *)
Lemma roundtrip_aligned (v : packet) (slack r : list byte) (fuel : nat) :
  uint16_ok (pkt_types v) -> uint16_ok (pkt_length v) ->
  List.length (pkt_transId v) = 16%nat ->
  pkt_attributes v <> [] ->
  Forall (fun a => attr_ok a /\ attr_aligned a) (pkt_attributes v) ->
  Z.of_nat (List.length (bytes v)) <= 65532 ->
  (List.length (pkt_attributes v) <= fuel)%nat ->
  newPacketFromBytes (RandOk r) fuel (slice_of (bytes v) slack)
  = Val (Some {| pkt_types := pkt_types v;
                 pkt_length :=
                   uint16 (pkt_length v + attrsLength (pkt_attributes v));
                 pkt_transId := pkt_transId v;
                 pkt_attributes := pkt_attributes v |}, None).
Proof.
  intros Hty Hlen Hid Hne Hall Hsize Hfuel.
  pose proof (bytes_length v) as Hbl. rewrite Hid in Hbl.
  assert (H24 : (24 <= List.length (bytes v))%nat).
  { rewrite Hbl. destruct (pkt_attributes v) as [|a l]; [congruence|].
    cbn [flat_map]. rewrite length_app, attributeBytes_length. lia. }
  rewrite newPacketFromBytes_header
    by (try apply slice_of_cap; cbn [slice_of s_len]; lia).
  assert (Hhdr : headerOf (s_arr (slice_of (bytes v) slack))
                 = {| pkt_types := pkt_types v; pkt_length := pkt_length v;
                      pkt_transId := pkt_transId v; pkt_attributes := [] |}).
  { unfold headerOf, slice_of, bytes. cbn [s_arr PutUint16 app nth skipn].
    rewrite !be16_PutUint16 by assumption.
    rewrite <- app_assoc, <- Hid, firstn_app, firstn_all, Nat.sub_diag.
    cbn [firstn]. rewrite app_nil_r. reflexivity. }
  rewrite Hhdr.
  change 20 with (Z.of_nat (List.length (PutUint16 (pkt_types v)
                    ++ PutUint16 (pkt_length v) ++ repeat x00 16))).
  replace (List.length (PutUint16 (pkt_types v) ++ PutUint16 (pkt_length v)
                        ++ repeat x00 16))
    with (List.length (PutUint16 (pkt_types v) ++ PutUint16 (pkt_length v)
                       ++ pkt_transId v))
    by (rewrite !length_app, Hid; reflexivity).
  rewrite (walk_attributes _ slack (pkt_attributes v) Hall).
  - destruct (addAttribute_fold (pkt_attributes v)
                {| pkt_types := pkt_types v; pkt_length := pkt_length v;
                   pkt_transId := pkt_transId v; pkt_attributes := [] |} Hlen)
      as (Ha & Hl & Ht & Hi).
    cbn [pkt_types pkt_length pkt_transId pkt_attributes app] in *.
    destruct (fold_left addAttribute _ _) as [t n i l].
    cbn [pkt_types pkt_length pkt_transId pkt_attributes] in *.
    subst. reflexivity.
  - cbn [slice_of s_len]. exact Hsize.
  - apply slice_of_cap.
  - unfold slice_of, bytes. cbn [s_arr]. rewrite <- !app_assoc. reflexivity.
  - cbn [slice_of s_len]. rewrite Hbl, !length_app, Hid. cbn [PutUint16 List.length].
    f_equal.
  - exact Hfuel.
Qed.

(** On the packets of [roundtrip_aligned] that keep the invariant of
    [addAttribute], the round trip never gives the length field back. *)
Lemma roundtrip_changes_length (v : packet) (slack r : list byte) (fuel : nat) :
  uint16_ok (pkt_types v) ->
  pkt_length v = uint16 (attrsLength (pkt_attributes v)) ->
  List.length (pkt_transId v) = 16%nat ->
  pkt_attributes v <> [] ->
  Forall (fun a => attr_ok a /\ attr_aligned a) (pkt_attributes v) ->
  Z.of_nat (List.length (bytes v)) <= 65532 ->
  (List.length (pkt_attributes v) <= fuel)%nat ->
  exists p : packet,
    newPacketFromBytes (RandOk r) fuel (slice_of (bytes v) slack)
    = Val (Some p, None) /\
    pkt_types p = pkt_types v /\ pkt_transId p = pkt_transId v /\
    pkt_attributes p = pkt_attributes v /\
    pkt_length p = uint16 (2 * pkt_length v) /\ pkt_length p <> pkt_length v.
Proof.
  intros Hty Hinv Hid Hne Hall Hsize Hfuel.
  assert (Hsum : Z.of_nat (List.length (bytes v))
                 = 20 + attrsLength (pkt_attributes v)).
  { rewrite bytes_length, Hid.
    destruct (aligned_attrs_length (pkt_attributes v)) as [Hl _]; [|lia].
    eapply Forall_impl; [|exact Hall]. intros a [[_ Hd] Ha]. split; assumption. }
  assert (Hpos : 4 <= attrsLength (pkt_attributes v)).
  { destruct (pkt_attributes v) as [|a l]; [congruence|].
    cbn [attrsLength fold_right]. fold (attrsLength l).
    pose proof (attrsLength_nonneg l). pose proof (align_nonneg (attr_length a)).
    lia. }
  rewrite uint16_small in Hinv by lia.
  eexists. split.
  - apply roundtrip_aligned; try assumption. unfold uint16_ok. lia.
  - cbn [pkt_types pkt_length pkt_transId pkt_attributes].
    rewrite <- Hinv. repeat split; [f_equal; lia|].
    unfold uint16. Z.div_mod_to_equations. lia.
Qed.

(** C1 at its failing input: the packet with one 4-byte attribute has
    length field 8; its serialization decodes to a packet with the same
    type, transaction ID and attributes and with length field 16, because
    [newPacketFromBytes] stores the length read from the header and then
    [addAttribute] adds each attribute's size to it again.  The packet with
    a 1-byte and a 4-byte attribute does not decode to its attributes at
    all: the decoder skips padding that [bytes] did not write. *)
Theorem roundtrip_length_doubled (r : list byte) (fuel : nat) :
  pkt_length alignedPacket = 8 /\
  newPacketFromBytes (RandOk r) (S (S fuel)) (slice_of (bytes alignedPacket) [])
  = Val (Some {| pkt_types := pkt_types alignedPacket;
                 pkt_length := 16;
                 pkt_transId := pkt_transId alignedPacket;
                 pkt_attributes := pkt_attributes alignedPacket |}, None) /\
  newPacketFromBytes (RandOk r) (S (S (S fuel)))
    (slice_of (bytes unalignedPacket) [])
  = Panics (SliceBounds 32 34 33) /\
  newPacketFromBytes (RandOk r) (S (S (S fuel)))
    (slice_of (bytes unalignedPacket) (repeat x00 31))
  = Val (None, Some (ErrorString "Received data format mismatch.")).
Proof. repeat split; reflexivity. Qed.

(** * Further properties *)

(** ** The decoder: what it returns *)

Lemma walk_outcome (fuel : nat) (s : slice) :
  forall (pos : Z) (pkt : packet) (p : option packet) (e : option error),
    walk fuel s pos pkt = Val (p, e) ->
    (exists q : packet, p = Some q /\ e = None) \/
    (p = None /\ e = Some (ErrorString "Received data format mismatch.")).
Proof.
  induction fuel as [|fuel IH]; intros pos pkt p e; cbn [walk];
    destruct (pos <? uint16 (s_len s)); try discriminate.
  - intros H. injection H as <- <-. left. eexists. split; reflexivity.
  - destruct (reslice s pos (uint16 (pos + 2))) as [b| |];
      cbn [bind]; try discriminate.
    destruct (Uint16 b) as [types| |]; cbn [bind]; try discriminate.
    destruct (reslice s (uint16 (pos + 2)) (uint16 (pos + 4))) as [b'| |];
      cbn [bind]; try discriminate.
    destruct (Uint16 b') as [length| |]; cbn [bind]; try discriminate.
    destruct (uint16 (pos + 4 + length) >? uint16 (s_len s)).
    + intros H. injection H as <- <-. right. split; reflexivity.
    + destruct (reslice s (uint16 (pos + 4)) (uint16 (pos + 4 + length)))
        as [value| |]; cbn [bind]; try discriminate.
      apply IH.
  - intros H. injection H as <- <-. left. eexists. split; reflexivity.
Qed.

Lemma newPacketFromBytes_cases (rnd : rand_outcome) (fuel : nat)
  (s : slice) (p : option packet) (e : option error) :
  newPacketFromBytes rnd fuel s = Val (p, e) ->
  (exists q : packet, p = Some q /\ e = None) \/
  (p = None /\
   ((e = Some (ErrorString "Received data length too short.") /\ s_len s < 24)
    \/ e = Some (ErrorString "Received data format mismatch.")
    \/ exists err : error, rnd = RandErr err /\ e = Some err)).
Proof.
  unfold newPacketFromBytes. destruct (s_len s <? 24) eqn:E.
  - intros H. injection H as <- <-. apply Z.ltb_lt in E.
    right. split; [reflexivity|]. left. split; [reflexivity | exact E].
  - destruct rnd as [r|err]; cbn [newPacket].
    + destruct (reslice s 0 2) as [b| |]; cbn [bind]; try discriminate.
      destruct (Uint16 b) as [types| |]; cbn [bind]; try discriminate.
      destruct (reslice s 2 4) as [b'| |]; cbn [bind]; try discriminate.
      destruct (Uint16 b') as [length| |]; cbn [bind]; try discriminate.
      destruct (reslice s 4 20) as [transId| |]; cbn [bind]; try discriminate.
      intros H. apply walk_outcome in H. destruct H as [H|[Hp He]].
      * left. exact H.
      * right. split; [exact Hp|]. right. left. exact He.
    + intros H. injection H as <- <-. right. split; [reflexivity|].
      right. right. exists err. split; reflexivity.
Qed.


(** X1: whenever [newPacketFromBytes] returns, it returns either a packet
    and no error, or no packet and an error; the error is "Received data
    length too short." (and then the input has less than 24 bytes),
    "Received data format mismatch.", or the error of [rand.Read]. *)
Theorem newPacketFromBytes_outcome (rnd : rand_outcome) (fuel : nat)
  (s : slice) (p : option packet) (e : option error) :
  newPacketFromBytes rnd fuel s = Val (p, e) ->
  (exists q : packet, p = Some q /\ e = None) \/
  (p = None /\
   ((e = Some (ErrorString "Received data length too short.") /\ s_len s < 24)
    \/ e = Some (ErrorString "Received data format mismatch.")
    \/ exists err : error, rnd = RandErr err /\ e = Some err)).
Proof. exact (newPacketFromBytes_cases rnd fuel s p e). Qed.

Lemma newPacketFromBytes_outcome_witness :
  (exists q : packet, Some replyPacket = Some q /\ @None error = None) \/
  (Some replyPacket = None /\
   ((@None error = Some (ErrorString "Received data length too short.")
     /\ s_len (slice_of replyDatagram []) < 24)
    \/ @None error = Some (ErrorString "Received data format mismatch.")
    \/ exists err : error, RandOk [] = RandErr err /\ None = Some err)).
Proof.
  apply (newPacketFromBytes_outcome (RandOk []) 4 (slice_of replyDatagram [])).
  vm_compute. reflexivity.
Defined.

(** X2: an input of less than 24 bytes is refused with "Received data
    length too short.", whatever it holds and before [rand.Read] is
    called. *)
Theorem newPacketFromBytes_too_short (rnd : rand_outcome) (fuel : nat)
  (s : slice) :
  s_len s < 24 ->
  newPacketFromBytes rnd fuel s
  = Val (None, Some (ErrorString "Received data length too short.")).
Proof. exact (newPacketFromBytes_short rnd fuel s). Qed.

Lemma newPacketFromBytes_too_short_witness :
  newPacketFromBytes (RandErr (OtherError 0)) 0
    (slice_of (firstn 23 replyDatagram) [])
  = Val (None, Some (ErrorString "Received data length too short.")).
Proof.
  apply (newPacketFromBytes_too_short (RandErr (OtherError 0)) 0
           (slice_of (firstn 23 replyDatagram) [])).
  vm_compute. reflexivity.
Defined.

(** X3: on an input of at least 24 bytes [newPacketFromBytes] draws twelve
    random bytes for a transaction ID that it then replaces: when
    [rand.Read] fails, decoding fails with that error whatever the input
    holds, and when it works the bytes drawn have no influence. *)
Theorem newPacketFromBytes_entropy (fuel : nat) (s : slice) :
  24 <= s_len s ->
  (forall err : error,
     newPacketFromBytes (RandErr err) fuel s = Val (None, Some err)) /\
  (forall r r' : list byte,
     newPacketFromBytes (RandOk r) fuel s = newPacketFromBytes (RandOk r') fuel s).
Proof.
  intros Hlen. split.
  - intros err. unfold newPacketFromBytes.
    destruct (s_len s <? 24) eqn:E; [apply Z.ltb_lt in E; lia | reflexivity].
  - intros r r'. reflexivity.
Qed.

Lemma newPacketFromBytes_entropy_witness :
  newPacketFromBytes (RandErr (OtherError 7)) 4 (slice_of replyDatagram [])
  = Val (None, Some (OtherError 7)).
Proof.
  apply (newPacketFromBytes_entropy 4 (slice_of replyDatagram [])).
  vm_compute. discriminate.
Defined.

(** X4: on a buffer whose length modulo 65536 is at most 65532 the
    attribute loop ends: one iteration for every four bytes behind the
    header is enough for [newPacketFromBytes] to return or panic. *)
Theorem newPacketFromBytes_terminates (rnd : rand_outcome) (fuel : nat)
  (s : slice) :
  uint16 (s_len s) <= 65532 ->
  uint16 (s_len s) - 20 <= 4 * Z.of_nat fuel ->
  newPacketFromBytes rnd fuel s <> Exhausted.
Proof. exact (newPacketFromBytes_finishes rnd fuel s). Qed.

Lemma newPacketFromBytes_terminates_witness :
  newPacketFromBytes (RandOk []) 2 (slice_of trailingBytes []) <> Exhausted.
Proof.
  apply (newPacketFromBytes_terminates (RandOk []) 2 (slice_of trailingBytes []));
    vm_compute; discriminate.
Defined.

(** ** The decoder: the packet it builds *)

Lemma walk_attributes_ok (fuel : nat) (s : slice) :
  forall (pos : Z) (pkt p : packet) (e : option error),
    Forall attr_ok (pkt_attributes pkt) ->
    walk fuel s pos pkt = Val (Some p, e) ->
    Forall attr_ok (pkt_attributes p).
Proof.
  induction fuel as [|fuel IH]; intros pos pkt p e Hok; cbn [walk];
    destruct (pos <? uint16 (s_len s)); try discriminate.
  - intros H. injection H as <- _. exact Hok.
  - destruct (reslice s pos (uint16 (pos + 2))) as [b| |];
      cbn [bind]; try discriminate.
    destruct (Uint16 b) as [types| |] eqn:Et; cbn [bind]; try discriminate.
    destruct (reslice s (uint16 (pos + 2)) (uint16 (pos + 4))) as [b'| |];
      cbn [bind]; try discriminate.
    destruct (Uint16 b') as [length| |]; cbn [bind]; try discriminate.
    destruct (uint16 (pos + 4 + length) >? uint16 (s_len s));
      [discriminate|].
    destruct (reslice s (uint16 (pos + 4)) (uint16 (pos + 4 + length)))
      as [value| |] eqn:Ev; cbn [bind]; try discriminate.
    apply IH. cbn [addAttribute pkt_attributes].
    apply Forall_app. split; [exact Hok|]. constructor; [|constructor].
    pose proof (contents_length _ _ _ _ Ev) as Hcl.
    apply reslice_Val in Ev. destruct Ev as (Hlo & _ & _).
    pose proof (uint16_range (pos + 4 + length)) as Hhi.
    unfold attr_ok, attr_declared, uint16_ok.
    cbn [newAttribute attr_types attr_length attr_value].
    rewrite uint16_small by lia.
    split; [exact (Uint16_range _ _ Et)|]. split; [lia | reflexivity].
  - intros H. injection H as <- _. exact Hok.
Qed.

(** X5: when [newPacketFromBytes] returns a packet for a buffer whose
    length modulo 65536 is at most 65532, its type is the big-endian value
    of bytes 0 and 1, its transaction ID is bytes 4 to 19, every attribute
    has a type and a length that fit 16 bits and a value of exactly the
    declared length, the attributes reach the end of the buffer, and the
    length field is the value of bytes 2 and 3 plus the size of the
    attributes, modulo 65536: the declared size is counted, and the
    decoded attributes are counted on top of it. *)
Theorem newPacketFromBytes_packet (r : list byte) (fuel : nat)
  (data slack : list byte) (p : packet) (e : option error) :
  uint16 (Z.of_nat (List.length data)) <= 65532 ->
  newPacketFromBytes (RandOk r) fuel (slice_of data slack) = Val (Some p, e) ->
  e = None /\
  pkt_types p = be16 (nth 0 data x00) (nth 1 data x00) /\
  pkt_transId p = firstn 16 (skipn 4 data) /\
  Forall attr_ok (pkt_attributes p) /\
  uint16 (Z.of_nat (List.length data)) <= 20 + attrsLength (pkt_attributes p) /\
  pkt_length p
  = uint16 (be16 (nth 2 data x00) (nth 3 data x00)
            + attrsLength (pkt_attributes p)).
Proof.
  intros Hu Hdec.
  destruct (Z_lt_ge_dec (Z.of_nat (List.length data)) 24) as [Hs|Hl].
  { rewrite newPacketFromBytes_short in Hdec by (cbn [slice_of s_len]; lia).
    discriminate. }
  rewrite newPacketFromBytes_header in Hdec
    by (try apply slice_of_cap; cbn [slice_of s_len]; lia).
  pose proof (walk_attributes_ok fuel _ 20
                (headerOf (s_arr (slice_of data slack))) p e
                (Forall_nil _) Hdec) as Hok.
  apply walk_covers in Hdec; try assumption; try lia;
    [|cbn [headerOf pkt_length]; apply be16_range].
  destruct Hdec as (l & Hat & Hlf & Hc & Ht & Hi & He).
  cbn [headerOf pkt_attributes pkt_types pkt_transId pkt_length app
       slice_of s_arr s_len] in *.
  rewrite !app_nth1 in * by lia.
  rewrite skipn_app, firstn_app, length_skipn in Hi.
  replace (16 - (List.length data - 4))%nat with 0%nat in Hi by lia.
  cbn [firstn] in Hi. rewrite app_nil_r in Hi.
  rewrite Hat. repeat split; assumption || (rewrite <- Hat; assumption).
Qed.

Lemma newPacketFromBytes_packet_witness :
  pkt_types replyPacket = 257 /\
  pkt_length replyPacket = uint16 (12 + attrsLength (pkt_attributes replyPacket)).
Proof.
  destruct (newPacketFromBytes_packet [] 4 replyDatagram [] replyPacket None)
    as (_ & Ht & _ & _ & _ & Hl).
  - vm_compute. discriminate.
  - vm_compute. reflexivity.
  - split; [exact Ht | exact Hl].
Defined.

(** ** The serialized size and the length field *)

Lemma attribute_bytes_bound (l : list attribute) :
  Forall (fun a => attr_declared a /\ attr_length a <= 65532) l ->
  Z.of_nat (List.length (flat_map attributeBytes l)) <= attrsLength l /\
  (Z.of_nat (List.length (flat_map attributeBytes l)) = attrsLength l
   <-> Forall attr_aligned l).
Proof.
  induction 1 as [|a l [[Hr Hd] Hmax] _ [IHle IHeq]].
  - split; [reflexivity|]. split; [constructor | reflexivity].
  - cbn [flat_map attrsLength fold_right]. fold (attrsLength l).
    rewrite length_app, attributeBytes_length.
    unfold uint16_ok in Hr.
    destruct (align_small (attr_length a)) as (Ha & Hm & Heq); [lia|].
    split; [lia|]. split.
    + intros Htot.
      assert (Hn : align (attr_length a) = attr_length a) by lia.
      constructor; [unfold attr_aligned; rewrite <- Hn; exact Hm|].
      apply IHeq. lia.
    + intros Hal. inversion Hal as [|? ? Ha0 Hl0]; subst.
      apply IHeq in Hl0. rewrite (Heq Ha0). lia.
Qed.

(** X6: for every packet whose attribute values have their declared
    lengths (at most 65532), the serialized packet is never longer than
    the 4 header bytes, the transaction ID and the size [addAttribute]
    accounts for, and it is exactly that long if and only if every value
    length is a multiple of 4: [bytes] writes the values as they are. *)
Theorem bytes_length_accounted (v : packet) :
  Forall (fun a => attr_declared a /\ attr_length a <= 65532)
         (pkt_attributes v) ->
  Z.of_nat (List.length (bytes v))
  <= 4 + Z.of_nat (List.length (pkt_transId v)) + attrsLength (pkt_attributes v)
  /\
  (Z.of_nat (List.length (bytes v))
   = 4 + Z.of_nat (List.length (pkt_transId v)) + attrsLength (pkt_attributes v)
   <-> Forall attr_aligned (pkt_attributes v)).
Proof.
  intros Hall. destruct (attribute_bytes_bound _ Hall) as [Hle [Hto Hfrom]].
  rewrite bytes_length. split; [lia|]. split.
  - intros H. apply Hto. lia.
  - intros H. apply Hfrom in H. lia.
Qed.

Lemma bytes_length_accounted_witness :
  Z.of_nat (List.length (bytes unalignedPacket))
  <= 4 + Z.of_nat (List.length (pkt_transId unalignedPacket))
     + attrsLength (pkt_attributes unalignedPacket).
Proof.
  apply (bytes_length_accounted unalignedPacket).
  repeat constructor; vm_compute; congruence.
Defined.

(** ** The round trip *)

(** X7: a packet with a 16-byte transaction ID and at least one attribute,
    whose type and length field fit 16 bits, whose attributes have types
    and lengths that fit 16 bits and values of the declared lengths, all
    multiples of 4, and whose serialization has at most 65532 bytes, is
    decoded from its serialization (in a buffer of any capacity) with the
    same type, transaction ID and attributes in the same order, and with
    the length field it was sent with plus the size of its attributes. *)
Theorem newPacketFromBytes_bytes (v : packet) (slack r : list byte)
  (fuel : nat) :
  uint16_ok (pkt_types v) -> uint16_ok (pkt_length v) ->
  List.length (pkt_transId v) = 16%nat ->
  pkt_attributes v <> [] ->
  Forall (fun a => attr_ok a /\ attr_aligned a) (pkt_attributes v) ->
  Z.of_nat (List.length (bytes v)) <= 65532 ->
  (List.length (pkt_attributes v) <= fuel)%nat ->
  newPacketFromBytes (RandOk r) fuel (slice_of (bytes v) slack)
  = Val (Some {| pkt_types := pkt_types v;
                 pkt_length :=
                   uint16 (pkt_length v + attrsLength (pkt_attributes v));
                 pkt_transId := pkt_transId v;
                 pkt_attributes := pkt_attributes v |}, None).
Proof. exact (roundtrip_aligned v slack r fuel). Qed.

Lemma attr4_ok : attr_ok attr4 /\ attr_aligned attr4.
Proof.
  unfold attr_ok, attr_declared, attr_aligned, uint16_ok.
  cbn [attr4 newAttribute attr_types attr_length attr_value List.length].
  change (uint16 (Z.of_nat 4)) with 4. repeat split; first [lia | reflexivity].
Qed.

Lemma newPacketFromBytes_bytes_witness :
  newPacketFromBytes (RandOk []) 1 (slice_of (bytes alignedPacket) [x00; x00])
  = Val (Some {| pkt_types := 1;
                 pkt_length := 16;
                 pkt_transId := pkt_transId request;
                 pkt_attributes := [attr4] |}, None).
Proof.
  apply (newPacketFromBytes_bytes alignedPacket [x00; x00] [] 1).
  - unfold uint16_ok. cbn. lia.
  - unfold uint16_ok. vm_compute. split; [discriminate | reflexivity].
  - reflexivity.
  - discriminate.
  - constructor; [exact attr4_ok | constructor].
  - vm_compute. discriminate.
  - cbn. lia.
Defined.

(** ** The exchange: every run *)

Lemma sent_of_app (tr tr' : list event) :
  sent_of (tr ++ tr') = sent_of tr ++ sent_of tr'.
Proof. apply flat_map_app. Qed.

Lemma sent_of_reads (n : nat) : sent_of (repeat EvReadFrom n) = [].
Proof. induction n as [|n IH]; [reflexivity | exact IH]. Qed.

Section EveryRun.

Variables (w : world) (v : packet) (to : addr).

(** What the receive loop returns: the sender and a packet with the
    request's transaction ID, or a read error. *)
Lemma recvLoop_result (rs : list read_outcome) :
  forall (k : nat) (tr : list event) (r : result) (st : state),
    recvLoop w v rs k tr = (Val (LReturn r), st) ->
    (exists (raddr : addr) (p : packet),
       r = (Some raddr, Some p, None) /\ pkt_transId p = pkt_transId v) \/
    (exists id : nat, r = (None, None, Some (NetError false id))).
Proof.
  induction rs as [|r0 rs IH]; intros k tr r st; cbn [recvLoop].
  - discriminate.
  - destruct r0 as [data raddr|[msg|[|] id|id]]; try discriminate.
    + destruct (bind _ _) as [[[p|] err]| |] eqn:Ed; try discriminate.
      destruct (bytes_Equal (pkt_transId v) (pkt_transId p)) eqn:Eq;
        cbn [negb]; [|apply IH].
      intros H. injection H as <- _. left. exists raddr, p.
      apply bytes_Equal_true in Eq. split; [|congruence].
      destruct (reslice (readBuffer data) 0 (readCount data)) as [s| |];
        cbn [bind] in Ed; try discriminate.
      apply newPacketFromBytes_cases in Ed.
      destruct Ed as [(q & _ & ->)|[Hn _]]; [reflexivity | discriminate].
    + intros H. injection H as <- _. right. exists id. reflexivity.
Qed.

Lemma sendLoop_result (n : nat) :
  forall (i : nat) (timeout : Z) (st : state) (r : result),
    fst (sendLoop w v to n i timeout st) = Val r ->
    r = (None, None, None) \/
    (exists (raddr : addr) (p : packet),
       r = (Some raddr, Some p, None) /\ pkt_transId p = pkt_transId v) \/
    (exists e : error, r = (None, None, Some e)).
Proof.
  induction n as [|n IH]; intros i timeout st r; cbn [sendLoop].
  - intros H. injection H as <-. left. reflexivity.
  - destruct (WriteTo w i) as [len [e|]].
    { intros H. injection H as <-. right. right. exists e. reflexivity. }
    destruct (negb _).
    { intros H. injection H as <-. right. right. eexists. reflexivity. }
    destruct (SetReadDeadline w i) as [e|].
    { intros H. injection H as <-. right. right. exists e. reflexivity. }
    destruct (recvLoop _ _ _ _ _) as [[[|r']| |] st3] eqn:Er; cbn [fst];
      try discriminate.
    + apply IH.
    + intros H. injection H as <-. apply recvLoop_result in Er.
      destruct Er as [Hm|[id ->]]; [right; left; exact Hm|].
      right. right. eexists. reflexivity.
Qed.

(** X8: in every environment, what [send] returns is nil, nil, nil, or an
    address and a packet without error, or an error without address and
    packet; and a packet it returns carries the request's transaction
    ID. *)
Theorem send_result (r : result) :
  fst (send w v to) = Val r ->
  r = (None, None, None) \/
  (exists (raddr : addr) (p : packet),
     r = (Some raddr, Some p, None) /\ pkt_transId p = pkt_transId v) \/
  (exists e : error, r = (None, None, Some e)).
Proof. apply sendLoop_result. Qed.

Lemma sendLoop_sent (n : nat) :
  forall (i : nat) (timeout : Z) (st : state),
    exists j k : nat,
      sent_of (trace (snd (sendLoop w v to n i timeout st)))
      = sent_of (trace st) ++ repeat (bytes v, to) j /\
      List.length (deadlines_of (trace (snd (sendLoop w v to n i timeout st))))
      = (List.length (deadlines_of (trace st)) + k)%nat /\
      (k <= j <= S k)%nat /\ (j <= n)%nat /\ (0 < n -> 0 < j)%nat.
Proof.
  induction n as [|n IH]; intros i timeout st.
  - exists 0%nat, 0%nat. cbn. rewrite app_nil_r. repeat split; lia.
  - cbn [sendLoop]. destruct (WriteTo w i) as [len [e|]].
    { exists 1%nat, 0%nat. cbn [snd trace].
      rewrite sent_of_app, deadlines_of_app, length_app. cbn.
      repeat split; lia. }
    destruct (negb _).
    { exists 1%nat, 0%nat. cbn [snd trace].
      rewrite sent_of_app, deadlines_of_app, length_app. cbn.
      repeat split; lia. }
    assert (Hev : forall (m : nat) (st3 : state),
               trace st3 = ((trace st ++ [EvWriteTo (bytes v) to])
                            ++ [EvSetReadDeadline timeout])
                           ++ repeat EvReadFrom m ->
               sent_of (trace st3) = sent_of (trace st) ++ [(bytes v, to)] /\
               List.length (deadlines_of (trace st3))
               = (List.length (deadlines_of (trace st)) + 1)%nat).
    { intros m st3 ->.
      rewrite !sent_of_app, !deadlines_of_app, sent_of_reads,
        deadlines_of_reads, !length_app. cbn. rewrite !app_nil_r.
      split; [reflexivity | lia]. }
    destruct (SetReadDeadline w i) as [e|].
    { exists 1%nat, 1%nat. cbn [snd trace].
      rewrite !sent_of_app, !deadlines_of_app, !length_app. cbn.
      rewrite !app_nil_r. repeat split; lia. }
    cbn [pending reads_done trace].
    destruct (recvLoop_trace w v (pending st) (reads_done st)
                ((trace st ++ [EvWriteTo (bytes v) to])
                 ++ [EvSetReadDeadline timeout])) as [m Hm].
    destruct (recvLoop _ _ _ _ _) as [[[|r]| |] st3]; cbn [snd] in Hm;
      destruct (Hev m st3 Hm) as [Hs Hd].
    + destruct (IH (S i) (doubled timeout) st3) as (j & k & Hj & Hk & Hjk & Hn & _).
      exists (S j), (S k). fold (doubled timeout). rewrite Hj, Hk, Hs, Hd.
      rewrite <- app_assoc. cbn [app repeat]. repeat split; lia.
    + exists 1%nat, 1%nat. cbn [snd]. rewrite Hs, Hd. repeat split; lia.
    + exists 1%nat, 1%nat. cbn [snd]. rewrite Hs, Hd. repeat split; lia.
    + exists 1%nat, 1%nat. cbn [snd]. rewrite Hs, Hd. repeat split; lia.
Qed.

(** X9: in every environment [send] writes at least once and at most nine
    times, each time the serialization of the request to the address it
    was given, and it arms a deadline after every write except possibly
    the last one. *)
Theorem send_writes :
  exists j : nat,
    (1 <= j <= 9)%nat /\
    sent_of (trace (snd (send w v to))) = repeat (bytes v, to) j /\
    (List.length (deadlines_of (trace (snd (send w v to)))) <= j
     <= S (List.length (deadlines_of (trace (snd (send w v to))))))%nat.
Proof.
  destruct (sendLoop_sent 9 0 100 (mkState (ReadFrom w) 0 []))
    as (j & k & Hj & Hk & Hjk & Hn & Hpos).
  fold (send w v to) in Hj, Hk.
  cbn [trace deadlines_of sent_of flat_map List.length Nat.add app] in Hj, Hk.
  exists j. rewrite Hk. split; [split; [apply Hpos; lia | lia]|].
  split; [exact Hj | lia].
Qed.

End EveryRun.

Lemma send_result_witness :
  (Some 8%nat, Some replyPacket, @None error) = (None, None, None) \/
  (exists (raddr : addr) (p : packet),
     (Some 8%nat, Some replyPacket, @None error) = (Some raddr, Some p, None)
     /\ pkt_transId p = pkt_transId request) \/
  (exists e : error,
     (Some 8%nat, Some replyPacket, @None error) = (None, None, Some e)).
Proof.
  apply (send_result (scripted [ReadOk replyDatagram 8%nat]) request 3%nat).
  vm_compute. reflexivity.
Defined.

(** ** The exchange: how an attempt can end *)

Section AttemptEnds.

Variables (w : world) (v : packet) (to : addr).
Hypothesis Hrand : rand_works w.

(** Attempts 0, ..., i-1 have ended in timeouts ([phases]): [send] is in
    attempt [i] with the reads [rest] to come. *)
Lemma send_attempt (phases : list (list (list byte * addr) * nat))
  (rest : list read_outcome) :
  (List.length phases < 9)%nat ->
  transport_works w v 0 (List.length phases) ->
  Forall (fun ph => Forall (fun d => unrelated v (fst d)) (fst ph)) phases ->
  ReadFrom w = flat_map phase phases ++ rest ->
  exists (tr : list event) (m : nat),
    send w v to
    = sendLoop w v to (S m) (List.length phases)
        (Nat.iter (List.length phases) doubled 100)
        (mkState rest (List.length (flat_map phase phases)) tr) /\
    (List.length phases + S m = 9)%nat /\
    writes_of tr = repeat (bytes v) (List.length phases) /\
    deadlines_of tr = schedule (List.length phases) 100.
Proof.
  intros Hlt Htr Hall Hrs.
  destruct (sendLoop_timeouts w v to Hrand phases Hall
              (9 - List.length phases) 0 100 (mkState (ReadFrom w) 0 []) rest
              Htr Hrs) as (tr & Hrun & Hwrs & Hdls).
  rewrite (send_split w v to (List.length phases)) by lia.
  destruct (9 - List.length phases)%nat as [|m] eqn:Em; [lia|].
  exists tr, m. rewrite Hrun. cbn [reads_done trace app Nat.add].
  repeat split; [lia | exact Hwrs | exact Hdls].
Qed.

(** X10: in any attempt, after datagrams that parse and carry other
    transaction IDs, a read error that is a [net.Error] and not a timeout
    ends [send] with nil, nil and that error; nothing is retransmitted and
    nothing more is read. *)
Theorem send_read_error (phases : list (list (list byte * addr) * nat))
  (pre : list (list byte * addr)) (id : nat) (rest : list read_outcome) :
  (List.length phases < 9)%nat ->
  transport_works w v 0 (S (List.length phases)) ->
  Forall (fun ph => Forall (fun d => unrelated v (fst d)) (fst ph)) phases ->
  Forall (fun d => unrelated v (fst d)) pre ->
  ReadFrom w = flat_map phase phases
               ++ map datagram pre ++ ReadErr (NetError false id) :: rest ->
  fst (send w v to) = Val (None, None, Some (NetError false id)) /\
  pending (snd (send w v to)) = rest /\
  writes_of (trace (snd (send w v to)))
  = repeat (bytes v) (S (List.length phases)).
Proof.
  intros Hlt Htr Hall Hpre Hrs.
  destruct (send_attempt phases
              (map datagram pre ++ ReadErr (NetError false id) :: rest) Hlt)
    as (tr & m & Hrun & _ & Hwrs & _);
    [intros j Hj; apply Htr; lia | exact Hall | exact Hrs |].
  destruct (Htr (List.length phases)) as [Hwr Hdl]; [lia|].
  rewrite Hrun. cbn [sendLoop]. rewrite Hwr, Z.eqb_refl. cbn [negb].
  rewrite Hdl. cbn [pending reads_done trace].
  rewrite (recvLoop_unrelated_all w v Hrand pre Hpre). cbn [recvLoop fst snd pending trace].
  repeat split. autorewrite with trace. rewrite Hwrs.
  cbn [writes_of flat_map app]. rewrite ?app_nil_r. apply repeat_snoc.
Qed.

(** X11: in any attempt, after datagrams that parse and carry other
    transaction IDs, a read error that does not implement [net.Error]
    makes the type assertion [err.(net.Error)] fail: [send] panics. *)
Theorem send_read_error_panics (phases : list (list (list byte * addr) * nat))
  (pre : list (list byte * addr)) (e : error) (rest : list read_outcome) :
  (List.length phases < 9)%nat ->
  transport_works w v 0 (S (List.length phases)) ->
  Forall (fun ph => Forall (fun d => unrelated v (fst d)) (fst ph)) phases ->
  Forall (fun d => unrelated v (fst d)) pre ->
  (forall (timeout : bool) (id : nat), e <> NetError timeout id) ->
  ReadFrom w = flat_map phase phases ++ map datagram pre ++ ReadErr e :: rest ->
  fst (send w v to) = Panics TypeAssertion.
Proof.
  intros Hlt Htr Hall Hpre Hne Hrs.
  destruct (send_attempt phases (map datagram pre ++ ReadErr e :: rest) Hlt)
    as (tr & m & Hrun & _);
    [intros j Hj; apply Htr; lia | exact Hall | exact Hrs |].
  destruct (Htr (List.length phases)) as [Hwr Hdl]; [lia|].
  rewrite Hrun. cbn [sendLoop]. rewrite Hwr, Z.eqb_refl. cbn [negb].
  rewrite Hdl. cbn [pending reads_done trace].
  rewrite (recvLoop_unrelated_all w v Hrand pre Hpre). cbn [recvLoop].
  destruct e as [msg|timeout id|id]; [reflexivity | | reflexivity].
  exfalso. exact (Hne timeout id eq_refl).
Qed.

(** X12: in any attempt, when the request has been written and
    [conn.SetReadDeadline] returns an error, [send] returns nil, nil and
    that error without reading. *)
Theorem send_deadline_error (phases : list (list (list byte * addr) * nat))
  (rest : list read_outcome) (e : error) :
  (List.length phases < 9)%nat ->
  transport_works w v 0 (List.length phases) ->
  Forall (fun ph => Forall (fun d => unrelated v (fst d)) (fst ph)) phases ->
  ReadFrom w = flat_map phase phases ++ rest ->
  WriteTo w (List.length phases) = (Z.of_nat (List.length (bytes v)), None) ->
  SetReadDeadline w (List.length phases) = Some e ->
  fst (send w v to) = Val (None, None, Some e) /\
  pending (snd (send w v to)) = rest /\
  writes_of (trace (snd (send w v to)))
  = repeat (bytes v) (S (List.length phases)) /\
  deadlines_of (trace (snd (send w v to)))
  = firstn (S (List.length phases)) backoff.
Proof.
  intros Hlt Htr Hall Hrs Hwr Hdl.
  destruct (send_attempt phases rest Hlt Htr Hall Hrs)
    as (tr & m & Hrun & Hm & Hwrs & Hdls).
  rewrite Hrun. cbn [sendLoop]. rewrite Hwr, Z.eqb_refl. cbn [negb].
  rewrite Hdl. cbn [fst snd pending trace].
  repeat split; autorewrite with trace.
  - rewrite Hwrs. cbn [writes_of flat_map app]. rewrite ?app_nil_r.
    apply repeat_snoc.
  - rewrite Hdls. cbn [deadlines_of flat_map app]. rewrite ?app_nil_r.
    rewrite <- schedule_backoff.
    replace 9%nat with (S (List.length phases) + m)%nat by lia.
    apply schedule_firstn.
Qed.

(** X13: in any attempt, after datagrams that parse and carry other
    transaction IDs, a datagram for which [newPacketFromBytes] returns an
    error (too short, or an attribute that overruns it) makes [send] panic:
    the packet returned with the error is nil, and [send] reads its
    transaction ID. *)
Theorem send_unparsed_datagram_panics
  (phases : list (list (list byte * addr) * nat))
  (pre : list (list byte * addr)) (d : list byte) (raddr : addr)
  (e : option error) (rest : list read_outcome) :
  (List.length phases < 9)%nat ->
  transport_works w v 0 (S (List.length phases)) ->
  Forall (fun ph => Forall (fun d => unrelated v (fst d)) (fst ph)) phases ->
  Forall (fun d => unrelated v (fst d)) pre ->
  decode d = Val (None, e) ->
  ReadFrom w = flat_map phase phases ++ map datagram pre ++ ReadOk d raddr :: rest ->
  fst (send w v to) = Panics NilDereference.
Proof.
  intros Hlt Htr Hall Hpre Hd Hrs.
  destruct (send_attempt phases (map datagram pre ++ ReadOk d raddr :: rest) Hlt)
    as (tr & m & Hrun & _);
    [intros j Hj; apply Htr; lia | exact Hall | exact Hrs |].
  destruct (Htr (List.length phases)) as [Hwr Hdl]; [lia|].
  rewrite Hrun. cbn [sendLoop]. rewrite Hwr, Z.eqb_refl. cbn [negb].
  rewrite Hdl. cbn [pending reads_done trace].
  rewrite (recvLoop_unrelated_all w v Hrand pre Hpre). cbn [recvLoop].
  destruct (Hrand (List.length (flat_map phase phases) + List.length pre)%nat)
    as [r Hr].
  rewrite Hr, decode_rand, Hd. reflexivity.
Qed.

End AttemptEnds.

Lemma send_read_error_witness :
  fst (send (scripted (phase ([], 0%nat)
                       ++ [ReadOk strangerDatagram 7%nat;
                           ReadErr (NetError false 5)]))
            request 3%nat)
  = Val (None, None, Some (NetError false 5)).
Proof.
  apply (send_read_error
           (scripted (phase ([], 0%nat)
                      ++ [ReadOk strangerDatagram 7%nat;
                          ReadErr (NetError false 5)]))
           request 3%nat (scripted_rand_works _)
           [([], 0%nat)] [(strangerDatagram, 7%nat)] 5%nat []).
  - cbn. lia.
  - apply scripted_transport_works.
  - repeat constructor.
  - repeat constructor. exact stranger_unrelated.
  - reflexivity.
Defined.

Lemma send_read_error_panics_witness :
  fst (send (scripted [ReadErr (ErrorString "EOF")]) request 3%nat)
  = Panics TypeAssertion.
Proof.
  apply (send_read_error_panics (scripted [ReadErr (ErrorString "EOF")])
           request 3%nat (scripted_rand_works _) [] []
           (ErrorString "EOF") []).
  - cbn. lia.
  - apply scripted_transport_works.
  - constructor.
  - constructor.
  - discriminate.
  - reflexivity.
Defined.

Lemma send_deadline_error_witness :
  fst (send (deadlineFails (phase ([], 0%nat))) request 3%nat)
  = Val (None, None, Some (OtherError 4)) /\
  deadlines_of (trace (snd (send (deadlineFails (phase ([], 0%nat)))
                                 request 3%nat)))
  = [100; 200].
Proof.
  destruct (send_deadline_error (deadlineFails (phase ([], 0%nat))) request
              3%nat (fun k => ex_intro _ (repeat x05 12) eq_refl)
              [([], 0%nat)] [] (OtherError 4))
    as (Hres & _ & _ & Hdls).
  - cbn. lia.
  - intros j Hj. cbn in Hj. assert (j = 0%nat) as -> by lia.
    split; reflexivity.
  - repeat constructor.
  - reflexivity.
  - reflexivity.
  - reflexivity.
  - split; [exact Hres | exact Hdls].
Defined.

Lemma send_unparsed_datagram_panics_witness :
  fst (send (scripted [ReadOk trailingBytes 7%nat; ReadOk replyDatagram 8%nat])
            request 3%nat)
  = Panics NilDereference.
Proof.
  apply (send_unparsed_datagram_panics
           (scripted [ReadOk trailingBytes 7%nat; ReadOk replyDatagram 8%nat])
           request 3%nat (scripted_rand_works _) [] [] trailingBytes 7%nat
           (Some (ErrorString "Received data format mismatch."))
           [ReadOk replyDatagram 8%nat]).
  - cbn. lia.
  - apply scripted_transport_works.
  - constructor.
  - constructor.
  - vm_compute. reflexivity.
  - reflexivity.
Defined.

(** ** The address accessors *)

Section Accessors.

Context {C : AttributeCodec}.

Lemma addressOf_first (code : Z) (pre : list attribute) (a : attribute)
  (post : list attribute) :
  Forall (fun b => attr_types b <> code) pre -> attr_types a = code ->
  addressOf code (pre ++ a :: post) = address a.
Proof.
  intros Hpre Ha. induction Hpre as [|b pre Hb _ IH]; cbn [app addressOf].
  - rewrite Ha, Z.eqb_refl. reflexivity.
  - apply Z.eqb_neq in Hb. rewrite Hb. exact IH.
Qed.

Lemma addressOf_absent (code : Z) (l : list attribute) :
  Forall (fun b => attr_types b <> code) l -> addressOf code l = None.
Proof.
  induction 1 as [|b l Hb _ IH]; cbn [addressOf]; [reflexivity|].
  apply Z.eqb_neq in Hb. rewrite Hb. exact IH.
Qed.

Lemma split_first (code : Z) (l : list attribute) :
  Exists (fun b => attr_types b = code) l ->
  exists (pre : list attribute) (a : attribute) (post : list attribute),
    l = pre ++ a :: post /\
    Forall (fun b => attr_types b <> code) pre /\ attr_types a = code.
Proof.
  induction l as [|b l IH]; intros Hex; [inversion Hex|].
  destruct (Z.eq_dec (attr_types b) code) as [Hb|Hb].
  - exists [], b, l. repeat split; [constructor | exact Hb].
  - inversion Hex as [? ? Hhd|? ? Htl]; subst; [contradiction|].
    destruct (IH Htl) as (pre & a & post & -> & Hpre & Ha).
    exists (b :: pre), a, post. repeat split; [|exact Ha].
    constructor; assumption.
Qed.

(** X14: [sourceAddr], [mappedAddr] and [changeAddr] answer with
    [address()] of the first attribute, in the order of the packet, that
    has their type code, whatever follows it and even when that address is
    nil; attributes of other types in front of it are passed over. *)
Theorem address_accessors_first (v : packet) (pre : list attribute)
  (a : attribute) (post : list attribute) :
  pkt_attributes v = pre ++ a :: post ->
  (Forall (fun b => attr_types b <> attributeSourceAddress) pre ->
   attr_types a = attributeSourceAddress -> sourceAddr v = address a) /\
  (Forall (fun b => attr_types b <> attributeMappedAddress) pre ->
   attr_types a = attributeMappedAddress -> mappedAddr v = address a) /\
  (Forall (fun b => attr_types b <> attributeChangedAddress) pre ->
   attr_types a = attributeChangedAddress -> changeAddr v = address a).
Proof.
  intros Hv. unfold sourceAddr, mappedAddr, changeAddr. rewrite Hv.
  repeat split; apply addressOf_first.
Qed.

(** X15: an accessor answers nil when the packet has no attribute with
    the type code it looks for; a packet without attributes has no
    address of any kind. *)
Theorem address_accessors_absent (v : packet) :
  (Forall (fun b => attr_types b <> attributeSourceAddress) (pkt_attributes v) ->
   sourceAddr v = None) /\
  (Forall (fun b => attr_types b <> attributeMappedAddress) (pkt_attributes v) ->
   mappedAddr v = None) /\
  (Forall (fun b => attr_types b <> attributeChangedAddress) (pkt_attributes v) ->
   changeAddr v = None) /\
  (Forall (fun b => ~ is_xor b) (pkt_attributes v) -> xorMappedAddr v = None).
Proof.
  unfold sourceAddr, mappedAddr, changeAddr, xorMappedAddr.
  repeat split; try apply addressOf_absent.
  induction 1 as [|b l Hb _ IH]; cbn [xorAddressOf]; [reflexivity|].
  unfold is_xor in Hb.
  destruct (attr_types b =? attributeXorMappedAddress) eqn:E1;
    [apply Z.eqb_eq in E1; tauto|].
  destruct (attr_types b =? attributeXorMappedAddressExp) eqn:E2;
    [apply Z.eqb_eq in E2; tauto|].
  exact IH.
Qed.

Lemma xorAddressOf_first (transId : list byte) (pre : list attribute)
  (a : attribute) (post : list attribute) :
  Forall (fun b => ~ is_xor b) pre -> is_xor a ->
  xorAddressOf transId (pre ++ a :: post) = attr_xorMappedAddr a transId.
Proof.
  intros Hpre Ha. induction Hpre as [|b pre Hb _ IH]; cbn [app xorAddressOf].
  - destruct Ha as [Ha|Ha]; rewrite Ha, Z.eqb_refl;
      rewrite ?orb_true_r; reflexivity.
  - unfold is_xor in Hb.
    destruct (attr_types b =? attributeXorMappedAddress) eqn:E1;
      [apply Z.eqb_eq in E1; tauto|].
    destruct (attr_types b =? attributeXorMappedAddressExp) eqn:E2;
      [apply Z.eqb_eq in E2; tauto|].
    exact IH.
Qed.

(** X16: [xorMappedAddr] answers with [xorMappedAddr(v.transId)] of the
    first attribute whose type is either of the two XOR-mapped-address
    codes, decoded against the transaction ID of the packet itself; the
    two codes are not told apart, and the one that comes first wins. *)
Theorem xorMappedAddr_first (v : packet) (pre : list attribute)
  (a : attribute) (post : list attribute) :
  pkt_attributes v = pre ++ a :: post ->
  Forall (fun b => ~ is_xor b) pre -> is_xor a ->
  xorMappedAddr v = attr_xorMappedAddr a (pkt_transId v).
Proof.
  intros Hv Hpre Ha. unfold xorMappedAddr. rewrite Hv.
  apply xorAddressOf_first; assumption.
Qed.

Lemma addressOf_app (code : Z) (l l' : list attribute) :
  Exists (fun b => attr_types b = code) l ->
  addressOf code (l ++ l') = addressOf code l.
Proof.
  intros Hex. destruct (split_first code l Hex) as (pre & a & post & -> & Hpre & Ha).
  rewrite <- app_assoc. cbn [app].
  rewrite !addressOf_first by assumption. reflexivity.
Qed.

(** X17: [addAttribute] does not change what [sourceAddr], [mappedAddr]
    and [changeAddr] answer once the packet holds an attribute with their
    type code: an attribute added later is never reached.  On a packet
    that holds none, the attribute added decides. *)
Theorem address_accessors_addAttribute (v : packet) (a : attribute) :
  (Exists (fun b => attr_types b = attributeSourceAddress) (pkt_attributes v) ->
   sourceAddr (addAttribute v a) = sourceAddr v) /\
  (Exists (fun b => attr_types b = attributeMappedAddress) (pkt_attributes v) ->
   mappedAddr (addAttribute v a) = mappedAddr v) /\
  (Exists (fun b => attr_types b = attributeChangedAddress) (pkt_attributes v) ->
   changeAddr (addAttribute v a) = changeAddr v) /\
  (Forall (fun b => attr_types b <> attributeMappedAddress) (pkt_attributes v) ->
   attr_types a = attributeMappedAddress ->
   mappedAddr (addAttribute v a) = address a).
Proof.
  unfold sourceAddr, mappedAddr, changeAddr.
  cbn [addAttribute pkt_attributes].
  repeat split; try apply addressOf_app.
  intros Hnone Ha. apply addressOf_first; assumption.
Qed.

(** X18: the four accessors answer the same on a packet and on the packet
    decoded from its serialization, for the packets of
    [newPacketFromBytes_bytes]: they look at the attributes and the
    transaction ID only, and these come back. *)
Theorem accessors_roundtrip (v : packet) (slack r : list byte) (fuel : nat) :
  uint16_ok (pkt_types v) -> uint16_ok (pkt_length v) ->
  List.length (pkt_transId v) = 16%nat ->
  pkt_attributes v <> [] ->
  Forall (fun a => attr_ok a /\ attr_aligned a) (pkt_attributes v) ->
  Z.of_nat (List.length (bytes v)) <= 65532 ->
  (List.length (pkt_attributes v) <= fuel)%nat ->
  exists p : packet,
    newPacketFromBytes (RandOk r) fuel (slice_of (bytes v) slack)
    = Val (Some p, None) /\
    sourceAddr p = sourceAddr v /\ mappedAddr p = mappedAddr v /\
    changeAddr p = changeAddr v /\ xorMappedAddr p = xorMappedAddr v.
Proof.
  intros Hty Hlen Hid Hne Hall Hsize Hfuel.
  eexists. split.
  - apply roundtrip_aligned; assumption.
  - repeat split.
Qed.

End Accessors.

Lemma address_accessors_first_witness :
  @mappedAddr exampleCodec shadowedPacket = None.
Proof.
  destruct (@address_accessors_first exampleCodec shadowedPacket
              [attr4] mappedShort [mapped2] eq_refl) as (_ & Hmapped & _).
  apply Hmapped.
  - repeat constructor. vm_compute. discriminate.
  - reflexivity.
Defined.

Lemma address_accessors_absent_witness :
  @mappedAddr exampleCodec alignedPacket = None.
Proof.
  destruct (@address_accessors_absent exampleCodec alignedPacket)
    as (_ & Hmapped & _).
  apply Hmapped. repeat constructor. vm_compute. discriminate.
Defined.

Lemma xorMappedAddr_first_witness :
  @xorMappedAddr exampleCodec xorPacket
  = Some (PutUint32 magicCookie ++ [xea; x12; xd5; x47]).
Proof.
  apply (@xorMappedAddr_first exampleCodec xorPacket
           [attr4] xorMappedExp [xorMapped] eq_refl).
  - repeat constructor. vm_compute. intros [H|H]; discriminate.
  - right. reflexivity.
Defined.

Lemma address_accessors_addAttribute_witness :
  @mappedAddr exampleCodec (addAttribute replySent mapped2)
  = @mappedAddr exampleCodec replySent.
Proof.
  destruct (@address_accessors_addAttribute exampleCodec replySent mapped2)
    as (_ & Hmapped & _).
  apply Hmapped. constructor. reflexivity.
Defined.

Lemma mapped1_ok : attr_ok mapped1 /\ attr_aligned mapped1.
Proof.
  unfold attr_ok, attr_declared, attr_aligned, uint16_ok.
  cbn [mapped1 newAttribute attr_types attr_length attr_value List.length].
  change (uint16 (Z.of_nat 8)) with 8. repeat split; first [lia | reflexivity].
Qed.

Lemma accessors_roundtrip_witness :
  exists p : packet,
    newPacketFromBytes (RandOk []) 1 (slice_of (bytes replySent) [])
    = Val (Some p, None) /\
    @sourceAddr exampleCodec p = @sourceAddr exampleCodec replySent /\
    @mappedAddr exampleCodec p = @mappedAddr exampleCodec replySent /\
    @changeAddr exampleCodec p = @changeAddr exampleCodec replySent /\
    @xorMappedAddr exampleCodec p = @xorMappedAddr exampleCodec replySent.
Proof.
  apply (@accessors_roundtrip exampleCodec replySent [] [] 1).
  - unfold uint16_ok. cbn. lia.
  - unfold uint16_ok. vm_compute. split; [discriminate | reflexivity].
  - reflexivity.
  - discriminate.
  - constructor; [exact mapped1_ok | constructor].
  - vm_compute. discriminate.
  - cbn. lia.
Defined.

(** ** Packets built for sending *)

Lemma fill12_length (r : list byte) : List.length (fill12 r) = 12%nat.
Proof.
  unfold fill12. rewrite length_firstn, length_app, repeat_length. lia.
Qed.

(** X19: a packet made by [newPacket] and any sequence of [addAttribute]
    calls has a transaction ID of 16 bytes, the four bytes of the magic
    cookie in big-endian order and then the twelve bytes [rand.Read]
    delivered; [addAttribute] changes neither it nor the message type, and
    the attributes are those added, in the order of the calls. *)
Theorem newPacket_addAttribute (r : list byte) (v0 : packet)
  (l : list attribute) :
  newPacket (RandOk r) = (Some v0, None) ->
  List.length (pkt_transId (fold_left addAttribute l v0)) = 16%nat /\
  firstn 4 (pkt_transId (fold_left addAttribute l v0)) = PutUint32 magicCookie /\
  (List.length r = 12%nat ->
   skipn 4 (pkt_transId (fold_left addAttribute l v0)) = r) /\
  pkt_types (fold_left addAttribute l v0) = pkt_types v0 /\
  pkt_attributes (fold_left addAttribute l v0) = l.
Proof.
  intros H.
  assert (Hv : v0 = {| pkt_types := 0; pkt_length := 0;
                       pkt_transId := PutUint32 magicCookie ++ fill12 r;
                       pkt_attributes := [] |})
    by (cbn [newPacket] in H; congruence).
  subst v0. clear H.
  destruct (addAttribute_fold l
              {| pkt_types := 0; pkt_length := 0;
                 pkt_transId := PutUint32 magicCookie ++ fill12 r;
                 pkt_attributes := [] |}) as (Ha & _ & Ht & Hi).
  { cbn. unfold uint16_ok. lia. }
  rewrite Ha, Ht, Hi. cbn [pkt_transId pkt_types pkt_attributes app].
  repeat split.
  - rewrite length_app, fill12_length. reflexivity.
  - intros Hr. cbn [PutUint32 app skipn]. unfold fill12.
    rewrite firstn_app, <- Hr, firstn_all, Nat.sub_diag. cbn [firstn].
    apply app_nil_r.
Qed.

Lemma newPacket_addAttribute_witness :
  pkt_transId (fold_left addAttribute [attr1; attr4] request)
  = PutUint32 magicCookie ++ repeat x07 12.
Proof.
  destruct (newPacket_addAttribute (repeat x07 12)
              {| pkt_types := 0; pkt_length := 0;
                 pkt_transId := PutUint32 magicCookie ++ repeat x07 12;
                 pkt_attributes := [] |}
              [attr1; attr4] eq_refl) as (_ & Hc & Hr & _).
  specialize (Hr eq_refl).
  rewrite <- (firstn_skipn 4 (pkt_transId (fold_left addAttribute [attr1; attr4] request))).
  change (pkt_transId (fold_left addAttribute [attr1; attr4] request))
    with (pkt_transId (fold_left addAttribute [attr1; attr4]
            {| pkt_types := 0; pkt_length := 0;
               pkt_transId := PutUint32 magicCookie ++ repeat x07 12;
               pkt_attributes := [] |})).
  rewrite Hc, Hr. reflexivity.
Defined.

(** ** A reply, end to end *)

Lemma attribute_bytes_count (l : list attribute) :
  (4 * List.length l <= List.length (flat_map attributeBytes l))%nat.
Proof.
  induction l as [|a l IH]; [reflexivity|].
  cbn [flat_map List.length]. rewrite length_app, attributeBytes_length. lia.
Qed.

(** A serialized packet that fits the receive buffer, as [send] decodes
    it. *)
Lemma decode_bytes (q : packet) :
  uint16_ok (pkt_types q) -> uint16_ok (pkt_length q) ->
  List.length (pkt_transId q) = 16%nat ->
  pkt_attributes q <> [] ->
  Forall (fun a => attr_ok a /\ attr_aligned a) (pkt_attributes q) ->
  (List.length (bytes q) <= 1024)%nat ->
  decode (bytes q)
  = Val (Some {| pkt_types := pkt_types q;
                 pkt_length :=
                   uint16 (pkt_length q + attrsLength (pkt_attributes q));
                 pkt_transId := pkt_transId q;
                 pkt_attributes := pkt_attributes q |}, None).
Proof.
  intros Hty Hlen Hid Hne Hall Hsize. unfold decode.
  pose proof (readCount_range (bytes q)) as Hc.
  rewrite reslice_ok by (rewrite ?readBuffer_cap; lia). cbn [bind].
  unfold readBuffer, readCount. cbn [s_arr].
  rewrite firstn_all2 by lia. rewrite Nat.min_l by lia. rewrite Z.sub_0_r.
  change (Z.to_nat 0) with 0%nat. cbn [skipn].
  change {| s_arr := bytes q ++ repeat x00 (1024 - List.length (bytes q));
            s_len := Z.of_nat (List.length (bytes q)) |}
    with (slice_of (bytes q) (repeat x00 (1024 - List.length (bytes q)))).
  apply roundtrip_aligned; try assumption; [lia|].
  pose proof (attribute_bytes_count (pkt_attributes q)) as Hn.
  pose proof (bytes_length q) as Hb. unfold datagramFuel. lia.
Qed.

Section Reply.

Variables (w : world) (v : packet) (to : addr).
Hypothesis Hrand : rand_works w.

(** X20: let the peer answer with the serialization of a packet [q] that
    carries the request's transaction ID, has at least one attribute, all
    values of their declared lengths and these multiples of 4, and fits the
    1024-byte receive buffer.  In whatever attempt the datagram arrives,
    behind whatever datagrams of other exchanges, [send] returns its sender
    and [q] itself, but for the length field, which comes back as the sent
    field plus the size of the attributes. *)
Theorem send_reply_decoded (phases : list (list (list byte * addr) * nat))
  (pre : list (list byte * addr)) (q : packet) (raddr : addr)
  (rest : list read_outcome) :
  (List.length phases < 9)%nat ->
  transport_works w v 0 (S (List.length phases)) ->
  Forall (fun ph => Forall (fun d => unrelated v (fst d)) (fst ph)) phases ->
  Forall (fun d => unrelated v (fst d)) pre ->
  uint16_ok (pkt_types q) -> uint16_ok (pkt_length q) ->
  List.length (pkt_transId q) = 16%nat ->
  pkt_transId q = pkt_transId v ->
  pkt_attributes q <> [] ->
  Forall (fun a => attr_ok a /\ attr_aligned a) (pkt_attributes q) ->
  (List.length (bytes q) <= 1024)%nat ->
  ReadFrom w = flat_map phase phases
               ++ map datagram pre ++ ReadOk (bytes q) raddr :: rest ->
  fst (send w v to)
  = Val (Some raddr,
         Some {| pkt_types := pkt_types q;
                 pkt_length :=
                   uint16 (pkt_length q + attrsLength (pkt_attributes q));
                 pkt_transId := pkt_transId q;
                 pkt_attributes := pkt_attributes q |},
         None).
Proof.
  intros Hlt Htr Hall Hpre Hty Hlen Hid Hsame Hne Hok Hsize Hrs.
  destruct (send_attempt w v to Hrand phases
              (map datagram pre ++ ReadOk (bytes q) raddr :: rest) Hlt)
    as (tr & m & Hrun & _);
    [intros j Hj; apply Htr; lia | exact Hall | exact Hrs |].
  destruct (Htr (List.length phases)) as [Hwr Hdl]; [lia|].
  rewrite Hrun. cbn [sendLoop]. rewrite Hwr, Z.eqb_refl. cbn [negb].
  rewrite Hdl. cbn [pending reads_done trace].
  rewrite (recvLoop_reply w v Hrand pre (bytes q) raddr
             {| pkt_types := pkt_types q;
                pkt_length :=
                  uint16 (pkt_length q + attrsLength (pkt_attributes q));
                pkt_transId := pkt_transId q;
                pkt_attributes := pkt_attributes q |} rest _ _ Hpre).
  - reflexivity.
  - split; [apply decode_bytes; assumption | exact Hsame].
Qed.

End Reply.

Lemma send_reply_decoded_witness :
  fst (send (scripted [ReadOk strangerDatagram 7%nat;
                       ReadOk (bytes replySent) 8%nat])
            request 3%nat)
  = Val (Some 8%nat, Some replyPacket, None).
Proof.
  apply (send_reply_decoded
           (scripted [ReadOk strangerDatagram 7%nat;
                      ReadOk (bytes replySent) 8%nat])
           request 3%nat (scripted_rand_works _)
           [] [(strangerDatagram, 7%nat)] replySent 8%nat []).
  - cbn. lia.
  - apply scripted_transport_works.
  - constructor.
  - repeat constructor. exact stranger_unrelated.
  - unfold uint16_ok. cbn. lia.
  - unfold uint16_ok. vm_compute. split; [discriminate | reflexivity].
  - reflexivity.
  - reflexivity.
  - discriminate.
  - constructor; [exact mapped1_ok | constructor].
  - apply Nat.leb_le. vm_compute. reflexivity.
  - reflexivity.
Defined.
